(** * hppCorbaServer: the server coordinator [ChppciServer]

    A shallow embedding of [src/hppciServer.cpp]: the two name-keyed
    factory registries (steering methods, distance functions), the CORBA
    bootstrap and binding sequences, the request-processing entry point and
    the process-wide singleton pointer.

    Conventions.
    - A C++ object pointer is an optional address ([None] is the null
      pointer); objects allocated with [new] live in a free store, a finite
      map from addresses to objects.
    - [std::map<std::string, T*>] is a [gmap string (option loc)].
    - Undefined behaviour (dereferencing a null or dangling pointer,
      deleting an object twice) is the result [None] of a function into
      [option].
    - Calls into the ORB runtime and into [ChppciServerPrivate] either
      return or throw; what each call site does is given by a [Runtime]
      record, so that every statement below holds for every behaviour of
      the runtime. *)

From Stdlib Require Import QArith.
From stdpp Require Import gmap strings list fin_maps.

Local Close Scope Q_scope.
Local Open Scope string_scope.
Local Open Scope list_scope.

(** ** Pointers and the free store *)

Definition loc := positive.

Abbreviation NULL := (@None loc).

(** [new T(...)]: the object is stored at an address that is not in use. *)
Definition new {A : Type} (x : A) (store : gmap loc A) : loc * gmap loc A :=
  let l := fresh (dom store) in (l, <[l := x]> store).

(** [delete p]: a null pointer is ignored; an address that holds no object
    (never allocated, or already deleted) is undefined behaviour. *)
Definition cxx_delete {A : Type} (p : option loc) (store : gmap loc A)
  : option (gmap loc A) :=
  match p with
  | None => Some store
  | Some l => match store !! l with
              | Some _ => Some (delete l store)
              | None => None
              end
  end.

(** [p->...]: the object a pointer designates. *)
Definition deref {A : Type} (p : option loc) (store : gmap loc A) : option A :=
  match p with
  | None => None
  | Some l => store !! l
  end.

(** ** [std::map] operations used by the server *)

Section StdMap.
Context {V : Type}.

(** [m.count(k)]: 0 or 1, keys are unique. *)
Definition map_count (m : gmap string (option V)) (k : string) : nat :=
  match m !! k with
  | Some _ => 1
  | None => 0
  end.

(** [m[k]]: the value stored under [k]; when [k] is absent a
    value-initialised entry (the null pointer) is inserted first. *)
Definition map_subscript (m : gmap string (option V)) (k : string)
  : option V * gmap string (option V) :=
  match m !! k with
  | Some v => (v, m)
  | None => (None, <[k := None]> m)
  end.

(** [m[k] = v]. *)
Definition map_assign (m : gmap string (option V)) (k : string) (v : option V)
  : gmap string (option V) :=
  <[k := v]> (snd (map_subscript m k)).
End StdMap.

(** ** The KineoWorks factories

    The factory classes come from the planning library. An object is
    represented by its dynamic class (with its constructor arguments);
    [ClientSteeringMethodFactory] and [ClientDistanceFactory] stand for the
    subclasses that client code registers. What a factory builds is left to
    the library: the virtual methods [makeSteeringMethod] and [makeDistance]
    are the fields of the class [KineoWorks]. *)

Inductive CkwsPlusSteeringMethodFactory :=
| CkwsPlusLinearSteeringMethodFactory
| CkwsPlusRSSteeringMethodFactory (radius : Q)
| CkwsPlusFlicSteeringMethodFactory
| ClientSteeringMethodFactory (tag : nat).

Inductive CkwsPlusDistanceFactory :=
| CkwsPlusLinearDistanceFactory
| CkwsPlusRSDistanceFactory (radius : Q)
| CkwsPlusApproxFlicDistanceFactory
| ClientDistanceFactory (tag : nat).

Class KineoWorks := {
  CkwsSteeringMethod : Type;
  CkwsDistance : Type;
  (** A shared pointer is an optional object, empty when [None]. *)
  makeSteeringMethod :
    CkwsPlusSteeringMethodFactory -> bool -> option CkwsSteeringMethod;
  makeDistance :
    CkwsPlusDistanceFactory -> bool -> option CkwsDistance
}.

Abbreviation CkwsSteeringMethodShPtr := (option CkwsSteeringMethod).
Abbreviation CkwsDistanceShPtr := (option CkwsDistance).

(** A stand-in for the library, used to run the model on concrete inputs:
    a strategy is the pair of its factory and of the flag it was built
    with. *)
Definition demoKineoWorks : KineoWorks := {|
  CkwsSteeringMethod := CkwsPlusSteeringMethodFactory * bool;
  CkwsDistance := CkwsPlusDistanceFactory * bool;
  makeSteeringMethod := fun f o => Some (f, o);
  makeDistance := fun f o => Some (f, o)
|}.

Inductive ktStatus := KD_OK | KD_ERROR.

(** ** The broker side

    [ChppciServerPrivate] is declared in [hppciServerPrivate.h] and the ORB
    belongs to the CORBA library. Their state is reduced to what the code of
    [hppciServer.cpp] reads and writes. *)

(** An incoming remote call waiting in the ORB, identified by a number. *)
Definition Request := nat.

(** The ORB as the server sees it: the calls that wait for dispatch, the
    calls already dispatched (oldest first), and whether [shutdown] was
    requested. *)
Record ORB := {
  pending : list Request;
  performed : list Request;
  shut : bool
}.

(** [orb->work_pending()]. *)
Definition work_pending (o : ORB) : bool :=
  match pending o with
  | [] => false
  | _ :: _ => true
  end.

(** [orb->perform_work()]: one waiting call is dispatched. *)
Definition perform_work (o : ORB) : ORB :=
  match pending o with
  | [] => o
  | r :: rest =>
      {| pending := rest; performed := performed o ++ [r]; shut := shut o |}
  end.

(** [orb->run()]: the calling thread serves the ORB until the ORB is shut
    down. On an ORB that is shut down the call returns at once; otherwise it
    does not return ([None]). *)
Definition run (o : ORB) : option ORB :=
  if shut o then Some o else None.

(** [orb->shutdown(0)]. *)
Definition shutdown (o : ORB) : ORB :=
  {| pending := pending o; performed := performed o; shut := true |}.

Inductive POAManagerState := HOLDING | ACTIVE.

Inductive Servant := robotServant | obstacleServant | problemServant.

Module CosNaming.
Record NameComponent := { id : string; kind : string }.

(** [CosNaming::Name], a sequence of components. *)
Definition Name := list NameComponent.

Definition empty_component : NameComponent := {| id := ""; kind := "" |}.

(** [name.length(n)]: the sequence is cut or padded with empty
    components. *)
Definition length (n : nat) (name : Name) : Name :=
  take n (name ++ replicate n empty_component).

(** [name[i].id = s] and [name[i].kind = s]. *)
Definition set_id (i : nat) (s : string) (name : Name) : Name :=
  alter (fun c => {| id := s; kind := kind c |}) i name.

Definition set_kind (i : nat) (s : string) (name : Name) : Name :=
  alter (fun c => {| id := id c; kind := s |}) i name.
End CosNaming.

(** The calls the server makes on the broker side, in the order they are
    made. *)
Inductive Call :=
| ORB_init (argv : list string)
| resolve_initial_references (identifier : string)
| POA_narrow
| create_thread_policy
| ThreadPolicy_duplicate
| create_POA (adapter_name : string)
| ThreadPolicy_destroy
| createAndActivateServers
| Servant_this (s : Servant)
| createHppContext
| bindObjectToName (object : Servant) (name : CosNaming.Name)
| Servant_remove_ref (s : Servant)
| the_POAManager
| POAManager_activate
| deactivateAndDestroyServers
| ORB_shutdown.

(** The part of [ChppciServerPrivate] the server uses: the ORB reference
    (nil when [None]), the child adapter (nil when [None], else the state
    of its manager). Two more fields record what the code did: the calls
    made on the broker side and the lines written to the standard
    streams. *)
Record ChppciServerPrivate := {
  orb : option ORB;
  poa : option POAManagerState;
  journal : list Call;
  console : list string
}.

Definition ChppciServerPrivate_new : ChppciServerPrivate :=
  {| orb := None; poa := None; journal := []; console := [] |}.

Definition set_orb (o : option ORB) (p : ChppciServerPrivate) :=
  {| orb := o; poa := poa p; journal := journal p; console := console p |}.

Definition set_poa (a : option POAManagerState) (p : ChppciServerPrivate) :=
  {| orb := orb p; poa := a; journal := journal p; console := console p |}.

Definition record_call (c : Call) (p : ChppciServerPrivate) :=
  {| orb := orb p; poa := poa p; journal := journal p ++ [c];
     console := console p |}.

Definition write_line (s : string) (p : ChppciServerPrivate) :=
  {| orb := orb p; poa := poa p; journal := journal p;
     console := console p ++ [s] |}.

(** What a call that may throw does. *)
Inductive outcome (A : Type) := Returns (a : A) | Throws.
Arguments Returns {A} a.
Arguments Throws {A}.

(** The behaviour of the broker side, one field per call site. A call that
    answers success or failure returns a boolean; [ORB_init] returns an ORB
    reference, possibly nil; [createAndActivateServers] reports through the
    status it returns. *)
Record Runtime := {
  on_ORB_init : list string -> outcome (option ORB);
  on_resolve_initial_references : string -> outcome unit;
  on_POA_narrow : outcome unit;
  on_create_thread_policy : outcome unit;
  on_ThreadPolicy_duplicate : outcome unit;
  on_create_POA : string -> outcome unit;
  on_ThreadPolicy_destroy : outcome unit;
  on_createAndActivateServers : ktStatus;
  on_Servant_this : Servant -> outcome unit;
  on_createHppContext : outcome bool;
  on_bindObjectToName : Servant -> CosNaming.Name -> outcome bool;
  on_Servant_remove_ref : Servant -> outcome unit;
  on_the_POAManager : outcome unit;
  on_POAManager_activate : outcome unit
}.

(** ** Statements inside a [try] block

    A statement runs on the private part and then either goes on with a
    value, leaves the function with a status ([return]), or throws. *)

Inductive flow (A : Type) := Next (a : A) | Return (r : ktStatus) | Raise.
Arguments Next {A} a.
Arguments Return {A} r.
Arguments Raise {A}.

Definition Try (A : Type) : Type :=
  ChppciServerPrivate -> ChppciServerPrivate * flow A.

Definition try_ret {A} (a : A) : Try A := fun p => (p, Next a).

Definition try_bind {A B} (m : Try A) (k : A -> Try B) : Try B :=
  fun p =>
    match m p with
    | (p', Next a) => k a p'
    | (p', Return r) => (p', Return r)
    | (p', Raise) => (p', Raise)
    end.

Declare Scope try_scope.
Delimit Scope try_scope with try.
Notation "x <- m ;; k" := (try_bind m (fun x => k))
  (at level 100, m at next level, right associativity) : try_scope.
Notation "m ;; k" := (try_bind m (fun _ => k))
  (at level 100, right associativity) : try_scope.

(** A call on the broker side. *)
Definition call {A} (c : Call) (o : outcome A) : Try A :=
  fun p =>
    (record_call c p,
     match o with
     | Returns a => Next a
     | Throws => Raise
     end).

Definition update (f : ChppciServerPrivate -> ChppciServerPrivate) : Try unit :=
  fun p => (f p, Next tt).

Definition leave {A} (r : ktStatus) : Try A := fun p => (p, Return r).

(** A [try] block followed by its handlers either falls through ([None])
    or has left the function with a status. *)
Definition Block : Type :=
  ChppciServerPrivate -> ChppciServerPrivate * option ktStatus.

(** Modelled from the spec: the macro [HPPCI_CATCH(msg, ret)] of
    [hppciExceptionHandlingMacros.h], which is not among the sources. It
    closes a [try] block with handlers that catch every exception, write
    the message of the step to the error stream and return [ret]. *)
Definition HPPCI_CATCH (msg : string) (ret : ktStatus) (body : Try unit) : Block :=
  fun p =>
    match body p with
    | (p', Next _) => (p', None)
    | (p', Return r) => (p', Some r)
    | (p', Raise) => (write_line msg p', Some ret)
    end.

(** Two blocks in sequence. *)
Definition and_then (b1 b2 : Block) : Block :=
  fun p =>
    match b1 p with
    | (p', Some r) => (p', Some r)
    | (p', None) => b2 p'
    end.

Infix ">>>" := and_then (at level 50, left associativity).

(** A function body made of blocks, ended by [return last]. *)
Definition function (body : Block)
    (last : ChppciServerPrivate -> ChppciServerPrivate * ktStatus)
  : ChppciServerPrivate -> ChppciServerPrivate * ktStatus :=
  fun p =>
    match body p with
    | (p', Some r) => (p', r)
    | (p', None) => last p'
    end.

(** ** The server object *)

Record ChppciServer := {
  hppPlanner : option loc;
  attPrivate : option ChppciServerPrivate;
  attMapSteeringMethodFactory : gmap string (option loc);
  attMapDistanceFunctionFactory : gmap string (option loc)
}.

Definition set_attPrivate (p : option ChppciServerPrivate) (this : ChppciServer) :=
  {| hppPlanner := hppPlanner this;
     attPrivate := p;
     attMapSteeringMethodFactory := attMapSteeringMethodFactory this;
     attMapDistanceFunctionFactory := attMapDistanceFunctionFactory this |}.

Definition set_attMapSteeringMethodFactory (m : gmap string (option loc))
    (this : ChppciServer) :=
  {| hppPlanner := hppPlanner this;
     attPrivate := attPrivate this;
     attMapSteeringMethodFactory := m;
     attMapDistanceFunctionFactory := attMapDistanceFunctionFactory this |}.

Definition set_attMapDistanceFunctionFactory (m : gmap string (option loc))
    (this : ChppciServer) :=
  {| hppPlanner := hppPlanner this;
     attPrivate := attPrivate this;
     attMapSteeringMethodFactory := attMapSteeringMethodFactory this;
     attMapDistanceFunctionFactory := m |}.

(** [delete] applied to each pointer of a list, in turn. *)
Fixpoint delete_each {A : Type} (ps : list (option loc)) (store : gmap loc A)
  : option (gmap loc A) :=
  match ps with
  | [] => Some store
  | p :: rest =>
      match cxx_delete p store with
      | Some store' => delete_each rest store'
      | None => None
      end
  end.

(** *** Steering method factories *)

Definition initMapSteeringMethodFactory (this : ChppciServer)
    (store : gmap loc CkwsPlusSteeringMethodFactory)
  : ChppciServer * gmap loc CkwsPlusSteeringMethodFactory :=
  let '(linear, store) := new CkwsPlusLinearSteeringMethodFactory store in
  let this :=
    set_attMapSteeringMethodFactory
      (map_assign (attMapSteeringMethodFactory this) "linear" (Some linear)) this in
  let '(rs, store) := new (CkwsPlusRSSteeringMethodFactory 1%Q) store in
  let this :=
    set_attMapSteeringMethodFactory
      (map_assign (attMapSteeringMethodFactory this) "rs" (Some rs)) this in
  let '(flic, store) := new CkwsPlusFlicSteeringMethodFactory store in
  let this :=
    set_attMapSteeringMethodFactory
      (map_assign (attMapSteeringMethodFactory this) "flic" (Some flic)) this in
  (this, store).

(** The loop visits the entries of the map and deletes the factory of
    each. [std::map] iterates in key order and [map_to_list] in another
    fixed order; the result is the same for every order
    ([delete_each_Permutation] below). *)
Definition destroySteeringMethodFactories (this : ChppciServer)
    (store : gmap loc CkwsPlusSteeringMethodFactory)
  : option (gmap loc CkwsPlusSteeringMethodFactory) :=
  delete_each (snd <$> map_to_list (attMapSteeringMethodFactory this)) store.

Definition steeringMethodFactoryAlreadySet (this : ChppciServer)
    (inName : string) : bool :=
  if bool_decide (map_count (attMapSteeringMethodFactory this) inName = 1)
  then true
  else false.

Definition addSteeringMethodFactory (this : ChppciServer) (inName : string)
    (inSteeringMethodFactory : option loc) : bool * ChppciServer :=
  if steeringMethodFactoryAlreadySet this inName then (false, this)
  else
    (true,
     set_attMapSteeringMethodFactory
       (map_assign (attMapSteeringMethodFactory this) inName
          inSteeringMethodFactory)
       this).

Definition createSteeringMethod `{KW : KineoWorks}
    (store : gmap loc CkwsPlusSteeringMethodFactory)
    (this : ChppciServer) (inName : string) (inOriented : bool)
  : option (CkwsSteeringMethodShPtr * ChppciServer) :=
  let result : CkwsSteeringMethodShPtr := None in
  if steeringMethodFactoryAlreadySet this inName then
    let '(p, m) := map_subscript (attMapSteeringMethodFactory this) inName in
    match deref p store with
    | Some factory =>
        Some (makeSteeringMethod factory inOriented,
              set_attMapSteeringMethodFactory m this)
    | None => None
    end
  else Some (result, this).

(** *** Distance function factories *)

Definition initMapDistanceFunctionFactory (this : ChppciServer)
    (store : gmap loc CkwsPlusDistanceFactory)
  : ChppciServer * gmap loc CkwsPlusDistanceFactory :=
  let '(linear, store) := new CkwsPlusLinearDistanceFactory store in
  let this :=
    set_attMapDistanceFunctionFactory
      (map_assign (attMapDistanceFunctionFactory this) "linear" (Some linear)) this in
  let '(rs, store) := new (CkwsPlusRSDistanceFactory 1%Q) store in
  let this :=
    set_attMapDistanceFunctionFactory
      (map_assign (attMapDistanceFunctionFactory this) "rs" (Some rs)) this in
  let '(flic, store) := new CkwsPlusApproxFlicDistanceFactory store in
  let this :=
    set_attMapDistanceFunctionFactory
      (map_assign (attMapDistanceFunctionFactory this) "flic" (Some flic)) this in
  (this, store).

Definition destroyDistanceFunctionFactories (this : ChppciServer)
    (store : gmap loc CkwsPlusDistanceFactory)
  : option (gmap loc CkwsPlusDistanceFactory) :=
  delete_each (snd <$> map_to_list (attMapDistanceFunctionFactory this)) store.

Definition distanceFactoryAlreadySet (this : ChppciServer)
    (inName : string) : bool :=
  if bool_decide (map_count (attMapDistanceFunctionFactory this) inName = 1)
  then true
  else false.

Definition addDistanceFactory (this : ChppciServer) (inName : string)
    (inDistanceFunctionFactory : option loc) : bool * ChppciServer :=
  if distanceFactoryAlreadySet this inName then (false, this)
  else
    (true,
     set_attMapDistanceFunctionFactory
       (map_assign (attMapDistanceFunctionFactory this) inName
          inDistanceFunctionFactory)
       this).

Definition createDistanceFunction `{KW : KineoWorks}
    (store : gmap loc CkwsPlusDistanceFactory)
    (this : ChppciServer) (inName : string) (inOriented : bool)
  : option (CkwsDistanceShPtr * ChppciServer) :=
  let result : CkwsDistanceShPtr := None in
  if distanceFactoryAlreadySet this inName then
    let '(p, m) := map_subscript (attMapDistanceFunctionFactory this) inName in
    match deref p store with
    | Some factory =>
        Some (makeDistance factory inOriented,
              set_attMapDistanceFunctionFactory m this)
    | None => None
    end
  else Some (result, this).

(** ** CORBA server initialization *)

Local Open Scope try_scope.

(** A method that works through [attPrivate]; a null [attPrivate] cannot be
    dereferenced. *)
Definition through_attPrivate {R : Type}
    (f : ChppciServerPrivate -> ChppciServerPrivate * R) (this : ChppciServer)
  : option (R * ChppciServer) :=
  match attPrivate this with
  | Some p => let '(p', r) := f p in Some (r, set_attPrivate (Some p') this)
  | None => None
  end.

Definition is_nil {A : Type} (ref : option A) : bool :=
  match ref with
  | Some _ => false
  | None => true
  end.

Definition initORBandServers (rt : Runtime) (argv : list string)
  : ChppciServer -> option (ktStatus * ChppciServer) :=
  through_attPrivate (function
    (HPPCI_CATCH "failed to initialize ORB" KD_ERROR
       (o <- call (ORB_init argv) (on_ORB_init rt argv) ;;
        update (set_orb o) ;;
        if is_nil o then
          update (write_line "hppCorbaServer: failed to initialize ORB") ;;
          leave KD_ERROR
        else try_ret tt)
     >>>
     HPPCI_CATCH "failed to resolve initial references" KD_ERROR
       (call (resolve_initial_references "RootPOA")
             (on_resolve_initial_references rt "RootPOA"))
     >>>
     HPPCI_CATCH "failed to create thread policy" KD_ERROR
       (call POA_narrow (on_POA_narrow rt) ;;
        call create_thread_policy (on_create_thread_policy rt))
     >>>
     HPPCI_CATCH "failed to duplicate thread policy" KD_ERROR
       (call ThreadPolicy_duplicate (on_ThreadPolicy_duplicate rt) ;;
        call (create_POA "child") (on_create_POA rt "child") ;;
        update (set_poa (Some HOLDING)))
     >>>
     HPPCI_CATCH "failed to destroy thread policy" KD_ERROR
       (call ThreadPolicy_destroy (on_ThreadPolicy_destroy rt)))
    (fun p =>
       (record_call createAndActivateServers p,
        on_createAndActivateServers rt))).

(** [pman->activate()] has returned: the manager of the child adapter
    dispatches. *)
Definition activated (p : ChppciServerPrivate) : ChppciServerPrivate :=
  match poa p with
  | Some _ => set_poa (Some ACTIVE) p
  | None => p
  end.

Definition startCorbaServer (rt : Runtime)
  : ChppciServer -> option (ktStatus * ChppciServer) :=
  through_attPrivate (function
    (HPPCI_CATCH "failed to start CORBA server" KD_ERROR
       (let robotObj := robotServant in
        call (Servant_this robotServant) (on_Servant_this rt robotServant) ;;
        let obstacleObj := obstacleServant in
        call (Servant_this obstacleServant) (on_Servant_this rt obstacleServant) ;;
        let problemObj := problemServant in
        call (Servant_this problemServant) (on_Servant_this rt problemServant) ;;
        context <- call createHppContext (on_createHppContext rt) ;;
        if negb context then leave KD_ERROR else
        let objectName : CosNaming.Name := [] in
        let objectName := CosNaming.length 1 objectName in
        let objectName := CosNaming.set_id 0 "Robot" objectName in
        let objectName := CosNaming.set_kind 0 "Object" objectName in
        bound <- call (bindObjectToName robotObj objectName)
                      (on_bindObjectToName rt robotObj objectName) ;;
        if negb bound then leave KD_ERROR else
        call (Servant_remove_ref robotServant)
             (on_Servant_remove_ref rt robotServant) ;;
        let objectName := CosNaming.length 1 objectName in
        let objectName := CosNaming.set_id 0 "Obstacle" objectName in
        let objectName := CosNaming.set_kind 0 "Object" objectName in
        bound <- call (bindObjectToName obstacleObj objectName)
                      (on_bindObjectToName rt obstacleObj objectName) ;;
        if negb bound then leave KD_ERROR else
        call (Servant_remove_ref obstacleServant)
             (on_Servant_remove_ref rt obstacleServant) ;;
        let objectName := CosNaming.length 1 objectName in
        let objectName := CosNaming.set_id 0 "Problem" objectName in
        let objectName := CosNaming.set_kind 0 "Object" objectName in
        bound <- call (bindObjectToName problemObj objectName)
                      (on_bindObjectToName rt problemObj objectName) ;;
        if negb bound then leave KD_ERROR else
        call (Servant_remove_ref problemServant)
             (on_Servant_remove_ref rt problemServant) ;;
        call the_POAManager (on_the_POAManager rt) ;;
        call POAManager_activate (on_POAManager_activate rt) ;;
        update activated))
    (fun p => (p, KD_OK))).

Local Close Scope try_scope.

Definition getHppPlanner (this : ChppciServer) : option loc := hppPlanner this.

(** ** Request processing *)

(** How a call of [processRequest] ends: it returns a value, it stays in
    the ORB's loop for ever, or it cannot be carried out (no private part
    or no ORB to call). *)
Inductive completion :=
| Returned (value : Z) (this : ChppciServer)
| Blocked (this : ChppciServer)
| Undefined.

Definition processRequest (this : ChppciServer) (loop : bool) : completion :=
  match attPrivate this with
  | None => Undefined
  | Some p =>
      match orb p with
      | None => Undefined
      | Some o =>
          if loop then
            let p :=
              write_line "ChppciServer::processRequest: attPrivate->orb->run();" p in
            match run o with
            | Some o' =>
                Returned 0 (set_attPrivate (Some (set_orb (Some o') p)) this)
            | None => Blocked (set_attPrivate (Some p) this)
            end
          else if work_pending o then
            Returned 0
              (set_attPrivate (Some (set_orb (Some (perform_work o)) p)) this)
          else Returned 0 this
      end
  end.

(** ** The process: the static pointer, the live servers, the free store *)

Record World := {
  s_hppciServer : option loc;
  servers : gmap loc ChppciServer;
  steeringFactories : gmap loc CkwsPlusSteeringMethodFactory;
  distanceFactories : gmap loc CkwsPlusDistanceFactory
}.

(** At program start the static pointer is zero-initialised and nothing is
    allocated. *)
Definition program_start : World :=
  {| s_hppciServer := None; servers := ∅;
     steeringFactories := ∅; distanceFactories := ∅ |}.

Definition getInstance (w : World) : option loc := s_hppciServer w.

(** The constructor, for the object at address [this]. The status of
    [initORBandServers] is dropped. *)
Definition ChppciServer_ctor (rt : Runtime) (this : loc)
    (inHppPlanner : option loc) (argv : list string) (w : World)
  : option World :=
  let self :=
    {| hppPlanner := inHppPlanner; attPrivate := None;
       attMapSteeringMethodFactory := ∅;
       attMapDistanceFunctionFactory := ∅ |} in
  let s := Some this in
  let self := set_attPrivate (Some ChppciServerPrivate_new) self in
  match initORBandServers rt argv self with
  | None => None
  | Some (_, self) =>
      let '(self, steering) :=
        initMapSteeringMethodFactory self (steeringFactories w) in
      let '(self, distance) :=
        initMapDistanceFunctionFactory self (distanceFactories w) in
      Some {| s_hppciServer := s;
              servers := <[this := self]> (servers w);
              steeringFactories := steering;
              distanceFactories := distance |}
  end.

(** The destructor, for the object at address [this].
    [deactivateAndDestroyServers] and [shutdown] are taken to return; with a
    nil ORB reference there is nothing to call [shutdown] on. The members
    are destroyed after the body, the two maps without touching what their
    pointers designate. *)
Definition ChppciServer_dtor (this : loc) (w : World) : option World :=
  match servers w !! this with
  | None => None
  | Some self =>
      match attPrivate self with
      | None => None
      | Some p =>
          let p := record_call deactivateAndDestroyServers p in
          match orb p with
          | None => None
          | Some o =>
              let p := record_call ORB_shutdown (set_orb (Some (shutdown o)) p) in
              let self := set_attPrivate None self in
              let s := NULL in
              match destroySteeringMethodFactories self (steeringFactories w) with
              | None => None
              | Some steering =>
                  Some {| s_hppciServer := s;
                          servers := delete this (servers w);
                          steeringFactories := steering;
                          distanceFactories := distanceFactories w |}
              end
          end
      end
  end.

(** What the program does with servers: it constructs one at an address
    where none lives, or destroys one. *)
Inductive Op :=
| Construct (rt : Runtime) (this : loc) (inHppPlanner : option loc)
    (argv : list string)
| Destroy (this : loc).

Definition step (w : World) (op : Op) : option World :=
  match op with
  | Construct rt this inHppPlanner argv =>
      match servers w !! this with
      | Some _ => None
      | None => ChppciServer_ctor rt this inHppPlanner argv w
      end
  | Destroy this => ChppciServer_dtor this w
  end.

Fixpoint steps (w : World) (ops : list Op) : option World :=
  match ops with
  | [] => Some w
  | op :: rest =>
      match step w op with
      | Some w' => steps w' rest
      | None => None
      end
  end.

(** ** The vocabulary of the statements *)

(** The three names a registry holds after construction. *)
Definition builtin_names : list string := ["linear"; "rs"; "flic"].

Definition returns {A : Type} (o : outcome A) : bool :=
  match o with
  | Returns _ => true
  | Throws => false
  end.

(** Every step of [initORBandServers] goes well. *)
Definition bootstrap_succeeds (rt : Runtime) (argv : list string) : bool :=
  match on_ORB_init rt argv with
  | Returns (Some _) =>
      returns (on_resolve_initial_references rt "RootPOA")
      && returns (on_POA_narrow rt)
      && returns (on_create_thread_policy rt)
      && returns (on_ThreadPolicy_duplicate rt)
      && returns (on_create_POA rt "child")
      && returns (on_ThreadPolicy_destroy rt)
      && match on_createAndActivateServers rt with
         | KD_OK => true
         | KD_ERROR => false
         end
  | _ => false
  end.

(** The accessor never returns the address of a server that is not alive. *)
Definition instance_alive (w : World) : Prop :=
  forall l, getInstance w = Some l -> is_Some (servers w !! l).

Definition is_Destroy (op : Op) : bool :=
  match op with
  | Destroy _ => true
  | Construct _ _ _ _ => false
  end.

(** The bindings asked of the naming context, in order: the object and the
    name it is to be bound under. *)
Fixpoint bindings (calls : list Call) : list (Servant * CosNaming.Name) :=
  match calls with
  | [] => []
  | bindObjectToName object name :: rest => (object, name) :: bindings rest
  | _ :: rest => bindings rest
  end.

Definition robotName : CosNaming.Name :=
  [{| CosNaming.id := "Robot"; CosNaming.kind := "Object" |}].

Definition obstacleName : CosNaming.Name :=
  [{| CosNaming.id := "Obstacle"; CosNaming.kind := "Object" |}].

Definition problemName : CosNaming.Name :=
  [{| CosNaming.id := "Problem"; CosNaming.kind := "Object" |}].

(** A step that answers success or failure has failed when it returns
    false and when it throws. *)
Definition failed (o : outcome bool) : Prop := o <> Returns true.

(** Registrations made one after the other; the answers are kept in
    order. *)
Fixpoint addSteeringMethodFactories (regs : list (string * option loc))
    (this : ChppciServer) : list bool * ChppciServer :=
  match regs with
  | [] => ([], this)
  | (inName, factory) :: rest =>
      let '(ok, this) := addSteeringMethodFactory this inName factory in
      let '(oks, this) := addSteeringMethodFactories rest this in
      (ok :: oks, this)
  end.

Fixpoint addDistanceFactories (regs : list (string * option loc))
    (this : ChppciServer) : list bool * ChppciServer :=
  match regs with
  | [] => ([], this)
  | (inName, factory) :: rest =>
      let '(ok, this) := addDistanceFactory this inName factory in
      let '(oks, this) := addDistanceFactories rest this in
      (ok :: oks, this)
  end.

(** A registry holds the address [l]. *)
Definition registered (m : gmap string (option loc)) (l : loc) : Prop :=
  exists name : string, m !! name = Some (Some l).

(** The five ORB steps of [initORBandServers] go well. *)
Definition orb_steps_succeed (rt : Runtime) (argv : list string) : bool :=
  match on_ORB_init rt argv with
  | Returns (Some _) =>
      returns (on_resolve_initial_references rt "RootPOA")
      && returns (on_POA_narrow rt)
      && returns (on_create_thread_policy rt)
      && returns (on_ThreadPolicy_duplicate rt)
      && returns (on_create_POA rt "child")
      && returns (on_ThreadPolicy_destroy rt)
  | _ => false
  end.

(** The calls of a bootstrap in which nothing fails. *)
Definition bootstrap_calls (argv : list string) : list Call :=
  [ORB_init argv; resolve_initial_references "RootPOA"; POA_narrow;
   create_thread_policy; ThreadPolicy_duplicate; create_POA "child";
   ThreadPolicy_destroy; createAndActivateServers].

(** The lines [initORBandServers] can write when the given call fails. *)
Definition step_diagnostics (c : Call) : list string :=
  match c with
  | ORB_init _ =>
      ["failed to initialize ORB"; "hppCorbaServer: failed to initialize ORB"]
  | resolve_initial_references _ => ["failed to resolve initial references"]
  | POA_narrow | create_thread_policy => ["failed to create thread policy"]
  | ThreadPolicy_duplicate | create_POA _ => ["failed to duplicate thread policy"]
  | ThreadPolicy_destroy => ["failed to destroy thread policy"]
  | _ => []
  end.


(** The name each service object is bound under. *)
Definition service_name (s : Servant) : CosNaming.Name :=
  match s with
  | robotServant => robotName
  | obstacleServant => obstacleName
  | problemServant => problemName
  end.



(** The bindings and the releases of the servants among the calls. *)
Fixpoint handovers (calls : list Call) : list Call :=
  match calls with
  | [] => []
  | bindObjectToName object name :: rest =>
      bindObjectToName object name :: handovers rest
  | Servant_remove_ref s :: rest => Servant_remove_ref s :: handovers rest
  | _ :: rest => handovers rest
  end.


(** ** Sample inputs *)

(** A server with one steering factory under ["linear"] and one distance
    factory under ["rs"], and the free stores that hold them. *)
Definition demo_server : ChppciServer :=
  {| hppPlanner := NULL;
     attPrivate := None;
     attMapSteeringMethodFactory := {[ "linear" := Some 1%positive ]};
     attMapDistanceFunctionFactory := {[ "rs" := Some 2%positive ]} |}.

Definition demo_steering : gmap loc CkwsPlusSteeringMethodFactory :=
  {[ 1%positive := CkwsPlusLinearSteeringMethodFactory ]}.

Definition demo_distance : gmap loc CkwsPlusDistanceFactory :=
  {[ 2%positive := CkwsPlusRSDistanceFactory 1%Q ]}.

(** A runtime in which every call goes well; the ORB starts with two calls
    waiting. *)
Definition demo_runtime : Runtime := {|
  on_ORB_init := fun _ =>
    Returns (Some {| pending := [7; 8]; performed := []; shut := false |});
  on_resolve_initial_references := fun _ => Returns tt;
  on_POA_narrow := Returns tt;
  on_create_thread_policy := Returns tt;
  on_ThreadPolicy_duplicate := Returns tt;
  on_create_POA := fun _ => Returns tt;
  on_ThreadPolicy_destroy := Returns tt;
  on_createAndActivateServers := KD_OK;
  on_Servant_this := fun _ => Returns tt;
  on_createHppContext := Returns true;
  on_bindObjectToName := fun _ _ => Returns true;
  on_Servant_remove_ref := fun _ => Returns tt;
  on_the_POAManager := Returns tt;
  on_POAManager_activate := Returns tt
|}.

(** A runtime in which the naming context refuses the obstacle. *)
Definition obstacle_refused : Runtime := {|
  on_ORB_init := on_ORB_init demo_runtime;
  on_resolve_initial_references := on_resolve_initial_references demo_runtime;
  on_POA_narrow := Returns tt;
  on_create_thread_policy := Returns tt;
  on_ThreadPolicy_duplicate := Returns tt;
  on_create_POA := on_create_POA demo_runtime;
  on_ThreadPolicy_destroy := Returns tt;
  on_createAndActivateServers := KD_OK;
  on_Servant_this := fun _ => Returns tt;
  on_createHppContext := Returns true;
  on_bindObjectToName := fun object _ =>
    match object with
    | obstacleServant => Returns false
    | _ => Returns true
    end;
  on_Servant_remove_ref := fun _ => Returns tt;
  on_the_POAManager := Returns tt;
  on_POAManager_activate := Returns tt
|}.

(** A server whose bootstrap went well: an ORB with two calls waiting and
    the child adapter, its manager holding. *)
Definition demo_private : ChppciServerPrivate :=
  {| orb := Some {| pending := [7; 8]; performed := []; shut := false |};
     poa := Some HOLDING; journal := []; console := [] |}.

Definition demo_bootstrapped : ChppciServer :=
  set_attPrivate (Some demo_private) demo_server.

Definition one_call_waiting : ChppciServer :=
  set_attPrivate
    (Some {| orb := Some {| pending := [7]; performed := [3]; shut := false |};
             poa := Some ACTIVE; journal := []; console := [] |})
    demo_server.

Definition no_call_waiting : ChppciServer :=
  set_attPrivate
    (Some {| orb := Some {| pending := []; performed := [3]; shut := false |};
             poa := Some ACTIVE; journal := []; console := [] |})
    demo_server.

(** Two servers are built, at addresses 1 and 2, and destroyed. *)
Definition demo_two_servers : list Op :=
  [Construct demo_runtime 1%positive NULL [];
   Construct demo_runtime 2%positive NULL []].

(** A server whose registries hold one factory under two names. *)
Definition shared_server : ChppciServer :=
  {| hppPlanner := NULL;
     attPrivate := None;
     attMapSteeringMethodFactory :=
       {[ "a" := Some 1%positive; "b" := Some 1%positive ]};
     attMapDistanceFunctionFactory :=
       {[ "a" := Some 2%positive; "b" := Some 2%positive ]} |}.

(** A runtime in which [ORB_init] throws. *)
Definition orb_refused : Runtime := {|
  on_ORB_init := fun _ => Throws;
  on_resolve_initial_references := on_resolve_initial_references demo_runtime;
  on_POA_narrow := Returns tt;
  on_create_thread_policy := Returns tt;
  on_ThreadPolicy_duplicate := Returns tt;
  on_create_POA := on_create_POA demo_runtime;
  on_ThreadPolicy_destroy := Returns tt;
  on_createAndActivateServers := KD_OK;
  on_Servant_this := on_Servant_this demo_runtime;
  on_createHppContext := Returns true;
  on_bindObjectToName := on_bindObjectToName demo_runtime;
  on_Servant_remove_ref := on_Servant_remove_ref demo_runtime;
  on_the_POAManager := Returns tt;
  on_POAManager_activate := Returns tt
|}.

(** A runtime in which the child adapter cannot be created. *)
Definition adapter_refused : Runtime := {|
  on_ORB_init := on_ORB_init demo_runtime;
  on_resolve_initial_references := on_resolve_initial_references demo_runtime;
  on_POA_narrow := Returns tt;
  on_create_thread_policy := Returns tt;
  on_ThreadPolicy_duplicate := Returns tt;
  on_create_POA := fun _ => Throws;
  on_ThreadPolicy_destroy := Returns tt;
  on_createAndActivateServers := KD_OK;
  on_Servant_this := on_Servant_this demo_runtime;
  on_createHppContext := Returns true;
  on_bindObjectToName := on_bindObjectToName demo_runtime;
  on_Servant_remove_ref := on_Servant_remove_ref demo_runtime;
  on_the_POAManager := Returns tt;
  on_POAManager_activate := Returns tt
|}.

(** * Properties *)

Ltac unfold_try :=
  unfold function, and_then, HPPCI_CATCH, try_bind, call, update, leave,
    try_ret in *.

Ltac case_outcomes :=
  repeat match goal with
         | |- context [match ?o with Returns _ => _ | Throws => _ end] =>
             destruct o as [[]|] eqn:?; simpl
         end.

Ltac not_in_calls :=
  let Hin := fresh "Hin" in
  intros Hin;
  repeat (apply elem_of_cons in Hin as [Hin|Hin]; [discriminate|]);
  by apply elem_of_nil in Hin.

(** ** The free store and [std::map] *)

Section StoreFacts.
Context {A : Type}.
Implicit Types (store : gmap loc A) (p : option loc).

Lemma new_fresh (x : A) store : store !! (new x store).1 = None.
Proof.
  unfold new; simpl. apply not_elem_of_dom, is_fresh.
Qed.

Lemma new_lookup (x : A) store l :
  (new x store).2 !! l =
    if decide ((new x store).1 = l) then Some x else store !! l.
Proof. unfold new; simpl. apply lookup_insert. Qed.

Lemma cxx_delete_comm p q store :
  mbind (cxx_delete q) (cxx_delete p store)
  = mbind (cxx_delete p) (cxx_delete q store).
Proof.
  destruct p as [l|], q as [k|]; simpl; try done.
  - destruct (decide (l = k)) as [->|Hne]; [done|].
    destruct (store !! l) eqn:Hl, (store !! k) eqn:Hk; simpl;
      rewrite ?lookup_delete_ne, ?Hl, ?Hk by done; try done.
    by rewrite delete_delete.
  - by destruct (store !! l).
  - by destruct (store !! k).
Qed.

Lemma delete_each_cons p ps store :
  delete_each (p :: ps) store = mbind (delete_each ps) (cxx_delete p store).
Proof. simpl. by destruct (cxx_delete p store). Qed.

Lemma delete_each_cons2 p q ps store :
  delete_each (p :: q :: ps) store
  = mbind (delete_each ps) (mbind (cxx_delete q) (cxx_delete p store)).
Proof.
  rewrite delete_each_cons.
  destruct (cxx_delete p store) as [s|]; [|done].
  apply delete_each_cons.
Qed.

(** The loop of a destroy function gives the same result whatever the
    order in which it visits the entries. *)
Lemma delete_each_Permutation ps qs store :
  ps ≡ₚ qs -> delete_each ps store = delete_each qs store.
Proof.
  intros Hperm. revert store.
  induction Hperm as [|p ps qs _ IH|p q ps|ps qs rs _ IH1 _ IH2]; intros store.
  - done.
  - rewrite !delete_each_cons. destruct (cxx_delete p store); simpl; auto.
  - rewrite !delete_each_cons2. by rewrite cxx_delete_comm.
  - by rewrite IH1.
Qed.
End StoreFacts.

Section StdMapFacts.
Context {V : Type}.
Implicit Types (m : gmap string (option V)) (k : string).

Lemma map_count_one m k : map_count m k = 1 <-> is_Some (m !! k).
Proof.
  unfold map_count. destruct (m !! k); split; intros H;
    try done; try by eexists.
Qed.

Lemma map_assign_insert m k v : map_assign m k v = <[k := v]> m.
Proof.
  unfold map_assign, map_subscript.
  destruct (m !! k); simpl; [done|]. apply insert_insert_eq.
Qed.

(** Reading through [operator[]] a key that is present changes nothing. *)
Lemma map_subscript_present m k v :
  m !! k = Some v -> map_subscript m k = (v, m).
Proof. unfold map_subscript. by intros ->. Qed.
End StdMapFacts.

(** ** The registries *)

Lemma steeringMethodFactoryAlreadySet_spec this inName :
  steeringMethodFactoryAlreadySet this inName = true
  <-> is_Some (attMapSteeringMethodFactory this !! inName).
Proof.
  unfold steeringMethodFactoryAlreadySet. rewrite <- map_count_one.
  by case_bool_decide.
Qed.

Lemma distanceFactoryAlreadySet_spec this inName :
  distanceFactoryAlreadySet this inName = true
  <-> is_Some (attMapDistanceFunctionFactory this !! inName).
Proof.
  unfold distanceFactoryAlreadySet. rewrite <- map_count_one.
  by case_bool_decide.
Qed.

Lemma steeringMethodFactoryAlreadySet_absent this inName :
  attMapSteeringMethodFactory this !! inName = None ->
  steeringMethodFactoryAlreadySet this inName = false.
Proof.
  intros Hnone. apply not_true_is_false.
  rewrite steeringMethodFactoryAlreadySet_spec, Hnone. by intros [? ?].
Qed.

Lemma distanceFactoryAlreadySet_absent this inName :
  attMapDistanceFunctionFactory this !! inName = None ->
  distanceFactoryAlreadySet this inName = false.
Proof.
  intros Hnone. apply not_true_is_false.
  rewrite distanceFactoryAlreadySet_spec, Hnone. by intros [? ?].
Qed.

Lemma set_attMapSteeringMethodFactory_id this :
  set_attMapSteeringMethodFactory (attMapSteeringMethodFactory this) this = this.
Proof. by destruct this. Qed.

Lemma set_attMapDistanceFunctionFactory_id this :
  set_attMapDistanceFunctionFactory (attMapDistanceFunctionFactory this) this = this.
Proof. by destruct this. Qed.

Lemma addSteeringMethodFactory_present this inName factory :
  is_Some (attMapSteeringMethodFactory this !! inName) ->
  addSteeringMethodFactory this inName factory = (false, this).
Proof.
  intros Hin. apply steeringMethodFactoryAlreadySet_spec in Hin.
  unfold addSteeringMethodFactory. by rewrite Hin.
Qed.

Lemma addSteeringMethodFactory_absent this inName factory :
  attMapSteeringMethodFactory this !! inName = None ->
  addSteeringMethodFactory this inName factory
  = (true,
     set_attMapSteeringMethodFactory
       (<[inName := factory]> (attMapSteeringMethodFactory this)) this).
Proof.
  intros Hout. unfold addSteeringMethodFactory.
  rewrite (steeringMethodFactoryAlreadySet_absent _ _ Hout).
  by rewrite map_assign_insert.
Qed.

Lemma addDistanceFactory_present this inName factory :
  is_Some (attMapDistanceFunctionFactory this !! inName) ->
  addDistanceFactory this inName factory = (false, this).
Proof.
  intros Hin. apply distanceFactoryAlreadySet_spec in Hin.
  unfold addDistanceFactory. by rewrite Hin.
Qed.

Lemma addDistanceFactory_absent this inName factory :
  attMapDistanceFunctionFactory this !! inName = None ->
  addDistanceFactory this inName factory
  = (true,
     set_attMapDistanceFunctionFactory
       (<[inName := factory]> (attMapDistanceFunctionFactory this)) this).
Proof.
  intros Hout. unfold addDistanceFactory.
  rewrite (distanceFactoryAlreadySet_absent _ _ Hout).
  by rewrite map_assign_insert.
Qed.

(** Two distinct names can both be registered; a name can be registered
    once only. *)
Lemma register_two_names this n1 n2 f1 f2 f3 :
  attMapSteeringMethodFactory this !! n1 = None ->
  attMapSteeringMethodFactory this !! n2 = None ->
  n1 <> n2 ->
  let '(r1, this1) := addSteeringMethodFactory this n1 f1 in
  let '(r2, this2) := addSteeringMethodFactory this1 n2 f2 in
  let '(r3, this3) := addSteeringMethodFactory this2 n1 f3 in
  r1 = true /\ r2 = true /\ r3 = false /\ this3 = this2.
Proof.
  intros H1 H2 Hne.
  rewrite (addSteeringMethodFactory_absent _ _ _ H1).
  rewrite addSteeringMethodFactory_absent;
    [|by simpl; rewrite lookup_insert_ne].
  rewrite addSteeringMethodFactory_present; [done|].
  simpl. rewrite lookup_insert_ne by done.
  rewrite lookup_insert_eq. by eexists.
Qed.

(** C1. In both registries, registering a factory under a name that is
    already present returns false and leaves the server as it was;
    registering under an absent name (the empty string is a name like any
    other) returns true, and the registry is the former one with the factory
    inserted under that name, nothing else being changed. *)
Theorem registerFactory_contract
    (this : ChppciServer) (inName : string) (factory : option loc) :
  (is_Some (attMapSteeringMethodFactory this !! inName) ->
   addSteeringMethodFactory this inName factory = (false, this))
  /\ (attMapSteeringMethodFactory this !! inName = None ->
      addSteeringMethodFactory this inName factory
      = (true,
         set_attMapSteeringMethodFactory
           (<[inName := factory]> (attMapSteeringMethodFactory this)) this))
  /\ (is_Some (attMapDistanceFunctionFactory this !! inName) ->
      addDistanceFactory this inName factory = (false, this))
  /\ (attMapDistanceFunctionFactory this !! inName = None ->
      addDistanceFactory this inName factory
      = (true,
         set_attMapDistanceFunctionFactory
           (<[inName := factory]> (attMapDistanceFunctionFactory this)) this)).
Proof.
  split; [|split; [|split]].
  - apply addSteeringMethodFactory_present.
  - apply addSteeringMethodFactory_absent.
  - apply addDistanceFactory_present.
  - apply addDistanceFactory_absent.
Qed.

Lemma registerFactory_contract_witness :
  addSteeringMethodFactory demo_server "linear" (Some 7%positive)
  = (false, demo_server)
  /\ addSteeringMethodFactory demo_server "" (Some 7%positive)
     = (true,
        set_attMapSteeringMethodFactory
          (<["" := Some 7%positive]> (attMapSteeringMethodFactory demo_server))
          demo_server)
  /\ addDistanceFactory demo_server "rs" NULL = (false, demo_server)
  /\ addDistanceFactory demo_server "" NULL
     = (true,
        set_attMapDistanceFunctionFactory
          (<["" := NULL]> (attMapDistanceFunctionFactory demo_server))
          demo_server).
Proof.
  split; [|split; [|split]].
  - apply (registerFactory_contract demo_server "linear" (Some 7%positive)).
    exists (Some 1%positive). reflexivity.
  - apply (registerFactory_contract demo_server "" (Some 7%positive)).
    reflexivity.
  - apply (registerFactory_contract demo_server "rs" NULL).
    exists (Some 2%positive). reflexivity.
  - apply (registerFactory_contract demo_server "" NULL).
    reflexivity.
Defined.

(** C2. Construction on demand returns the empty shared pointer, and does
    return, when the name is not registered; when the name is registered
    with a factory it returns what that factory's [makeSteeringMethod]
    (resp. [makeDistance]) returns for the same flag. *)
Theorem construct_contract `{KW : KineoWorks}
    (steering : gmap loc CkwsPlusSteeringMethodFactory)
    (distance : gmap loc CkwsPlusDistanceFactory)
    (this : ChppciServer) (inName : string) (inOriented : bool) :
  (attMapSteeringMethodFactory this !! inName = None ->
   fst <$> createSteeringMethod steering this inName inOriented = Some None)
  /\ (forall l factory,
        attMapSteeringMethodFactory this !! inName = Some (Some l) ->
        steering !! l = Some factory ->
        fst <$> createSteeringMethod steering this inName inOriented
        = Some (makeSteeringMethod factory inOriented))
  /\ (attMapDistanceFunctionFactory this !! inName = None ->
      fst <$> createDistanceFunction distance this inName inOriented = Some None)
  /\ (forall l factory,
        attMapDistanceFunctionFactory this !! inName = Some (Some l) ->
        distance !! l = Some factory ->
        fst <$> createDistanceFunction distance this inName inOriented
        = Some (makeDistance factory inOriented)).
Proof.
  unfold createSteeringMethod, createDistanceFunction.
  split; [|split; [|split]].
  - intros Hout. by rewrite (steeringMethodFactoryAlreadySet_absent _ _ Hout).
  - intros l factory Hin Hl.
    assert (steeringMethodFactoryAlreadySet this inName = true) as ->.
    { apply steeringMethodFactoryAlreadySet_spec. by eexists. }
    rewrite (map_subscript_present _ _ _ Hin). simpl. by rewrite Hl.
  - intros Hout. by rewrite (distanceFactoryAlreadySet_absent _ _ Hout).
  - intros l factory Hin Hl.
    assert (distanceFactoryAlreadySet this inName = true) as ->.
    { apply distanceFactoryAlreadySet_spec. by eexists. }
    rewrite (map_subscript_present _ _ _ Hin). simpl. by rewrite Hl.
Qed.

Lemma construct_contract_witness :
  fst <$> createSteeringMethod (KW := demoKineoWorks)
            demo_steering demo_server "nope" true = Some None
  /\ fst <$> createSteeringMethod (KW := demoKineoWorks)
               demo_steering demo_server "linear" true
     = Some (Some (CkwsPlusLinearSteeringMethodFactory, true))
  /\ fst <$> createDistanceFunction (KW := demoKineoWorks)
               demo_distance demo_server "linear" false = Some None
  /\ fst <$> createDistanceFunction (KW := demoKineoWorks)
               demo_distance demo_server "rs" false
     = Some (Some (CkwsPlusRSDistanceFactory 1%Q, false)).
Proof.
  split; [|split; [|split]].
  - apply (construct_contract (KW := demoKineoWorks)
             demo_steering demo_distance demo_server "nope" true).
    reflexivity.
  - apply (construct_contract (KW := demoKineoWorks)
             demo_steering demo_distance demo_server "linear" true)
      with (l := 1%positive); reflexivity.
  - apply (construct_contract (KW := demoKineoWorks)
             demo_steering demo_distance demo_server "linear" false).
    reflexivity.
  - apply (construct_contract (KW := demoKineoWorks)
             demo_steering demo_distance demo_server "rs" false)
      with (l := 2%positive); reflexivity.
Defined.

(** C10. Construction on demand does not change the server, hence neither
    registry: whenever the call goes through, the server afterwards is the
    server before. The only calls that do not go through are those where the
    pointer stored under the name designates no factory. *)
Theorem construct_preserves_registry `{KW : KineoWorks}
    (steering : gmap loc CkwsPlusSteeringMethodFactory)
    (distance : gmap loc CkwsPlusDistanceFactory)
    (this : ChppciServer) (inName : string) (inOriented : bool) :
  match createSteeringMethod steering this inName inOriented with
  | Some (_, this') => this' = this
  | None =>
      exists p, attMapSteeringMethodFactory this !! inName = Some p
                /\ deref p steering = None
  end
  /\ match createDistanceFunction distance this inName inOriented with
     | Some (_, this') => this' = this
     | None =>
         exists p, attMapDistanceFunctionFactory this !! inName = Some p
                   /\ deref p distance = None
     end.
Proof.
  unfold createSteeringMethod, createDistanceFunction. split.
  - destruct (steeringMethodFactoryAlreadySet this inName) eqn:Hset; [|done].
    apply steeringMethodFactoryAlreadySet_spec in Hset as [p Hp].
    rewrite (map_subscript_present _ _ _ Hp).
    destruct (deref p steering) eqn:Hd; [|by eauto].
    apply set_attMapSteeringMethodFactory_id.
  - destruct (distanceFactoryAlreadySet this inName) eqn:Hset; [|done].
    apply distanceFactoryAlreadySet_spec in Hset as [p Hp].
    rewrite (map_subscript_present _ _ _ Hp).
    destruct (deref p distance) eqn:Hd; [|by eauto].
    apply set_attMapDistanceFunctionFactory_id.
Qed.

(** ** Construction *)

Lemma through_attPrivate_Some {R : Type}
    (f : ChppciServerPrivate -> ChppciServerPrivate * R) this p :
  attPrivate this = Some p ->
  through_attPrivate f this = Some ((f p).2, set_attPrivate (Some (f p).1) this).
Proof. unfold through_attPrivate. intros ->. by destruct (f p). Qed.

Lemma initMapSteeringMethodFactory_eq this store :
  let s1 := new CkwsPlusLinearSteeringMethodFactory store in
  let s2 := new (CkwsPlusRSSteeringMethodFactory 1%Q) s1.2 in
  let s3 := new CkwsPlusFlicSteeringMethodFactory s2.2 in
  initMapSteeringMethodFactory this store
  = (set_attMapSteeringMethodFactory
       (<["flic" := Some s3.1]>
          (<["rs" := Some s2.1]>
             (<["linear" := Some s1.1]> (attMapSteeringMethodFactory this))))
       this,
     s3.2).
Proof.
  unfold initMapSteeringMethodFactory, new; simpl.
  by rewrite !map_assign_insert.
Qed.

Lemma initMapDistanceFunctionFactory_eq this store :
  let s1 := new CkwsPlusLinearDistanceFactory store in
  let s2 := new (CkwsPlusRSDistanceFactory 1%Q) s1.2 in
  let s3 := new CkwsPlusApproxFlicDistanceFactory s2.2 in
  initMapDistanceFunctionFactory this store
  = (set_attMapDistanceFunctionFactory
       (<["flic" := Some s3.1]>
          (<["rs" := Some s2.1]>
             (<["linear" := Some s1.1]> (attMapDistanceFunctionFactory this))))
       this,
     s3.2).
Proof.
  unfold initMapDistanceFunctionFactory, new; simpl.
  by rewrite !map_assign_insert.
Qed.

Lemma builtin_lookup {V : Type} (a b c : V) (name : string) :
  is_Some ((<["flic" := c]> (<["rs" := b]> (<["linear" := a]> ∅))
            : gmap string V) !! name)
  <-> name ∈ builtin_names.
Proof.
  unfold builtin_names. rewrite !elem_of_cons, elem_of_nil.
  destruct (decide (name = "flic")) as [->|Hf].
  { rewrite lookup_insert_eq. split; [auto|by eexists]. }
  rewrite lookup_insert_ne by done.
  destruct (decide (name = "rs")) as [->|Hr].
  { rewrite lookup_insert_eq. split; [auto|by eexists]. }
  rewrite lookup_insert_ne by done.
  destruct (decide (name = "linear")) as [->|Hl].
  { rewrite lookup_insert_eq. split; [auto|by eexists]. }
  rewrite lookup_insert_ne by done. rewrite lookup_empty.
  split; [by intros [? ?]|]. intros [?|[?|[?|[]]]]; congruence.
Qed.

(** The constructor goes through for every runtime, and its result is read
    off the two [initMap] functions; [p] is the private part left by
    [initORBandServers]. *)
Lemma ChppciServer_ctor_eq rt this inHppPlanner argv w :
  exists p,
    ChppciServer_ctor rt this inHppPlanner argv w
    = Some
        (let self :=
           {| hppPlanner := inHppPlanner; attPrivate := Some p;
              attMapSteeringMethodFactory := ∅;
              attMapDistanceFunctionFactory := ∅ |} in
         let steering := initMapSteeringMethodFactory self (steeringFactories w) in
         let distance :=
           initMapDistanceFunctionFactory steering.1 (distanceFactories w) in
         {| s_hppciServer := Some this;
            servers := <[this := distance.1]> (servers w);
            steeringFactories := steering.2;
            distanceFactories := distance.2 |}).
Proof.
  unfold ChppciServer_ctor, initORBandServers.
  erewrite through_attPrivate_Some by reflexivity.
  eexists. simpl.
  by repeat match goal with
            | |- context [let '(_, _) := ?x in _] => destruct x eqn:?
            end.
Qed.

(** C3. Right after construction, whatever the runtime did during the
    bootstrap, the steering-method registry and the distance-function
    registry of the new server hold entries for exactly the names
    ["linear"], ["rs"] and ["flic"]: the presence test answers true for
    these three and false for every other name. *)
Theorem builtin_registries
    (rt : Runtime) (this : loc) (inHppPlanner : option loc)
    (argv : list string) (w : World) :
  exists w' self,
    ChppciServer_ctor rt this inHppPlanner argv w = Some w'
    /\ servers w' !! this = Some self
    /\ forall name : string,
         (steeringMethodFactoryAlreadySet self name = true
          <-> name ∈ ["linear"; "rs"; "flic"])
         /\ (distanceFactoryAlreadySet self name = true
             <-> name ∈ ["linear"; "rs"; "flic"]).
Proof.
  destruct (ChppciServer_ctor_eq rt this inHppPlanner argv w) as [p ->].
  eexists _, _. split; [reflexivity|]. cbn zeta.
  split; [apply lookup_insert_eq|].
  intros name.
  rewrite steeringMethodFactoryAlreadySet_spec, distanceFactoryAlreadySet_spec.
  rewrite initMapDistanceFunctionFactory_eq, initMapSteeringMethodFactory_eq.
  cbn [fst set_attMapDistanceFunctionFactory set_attMapSteeringMethodFactory
       attMapSteeringMethodFactory attMapDistanceFunctionFactory].
  split; apply builtin_lookup.
Qed.

(** *** The status of the bootstrap *)

(** [initORBandServers] returns [KD_OK] when every step goes well and
    [KD_ERROR] as soon as one does not. *)
Lemma initORBandServers_status rt argv this p :
  attPrivate this = Some p ->
  fst <$> initORBandServers rt argv this
  = Some (if bootstrap_succeeds rt argv then KD_OK else KD_ERROR).
Proof.
  intros Hp. unfold initORBandServers.
  rewrite (through_attPrivate_Some _ _ _ Hp). simpl. f_equal.
  unfold bootstrap_succeeds, function, and_then, HPPCI_CATCH, try_bind, call,
    update, leave, try_ret, returns.
  destruct (on_ORB_init rt argv) as [[o|]|]; simpl; try done.
  destruct (on_resolve_initial_references rt "RootPOA"); simpl; try done.
  destruct (on_POA_narrow rt); simpl; try done.
  destruct (on_create_thread_policy rt); simpl; try done.
  destruct (on_ThreadPolicy_duplicate rt); simpl; try done.
  destruct (on_create_POA rt "child"); simpl; try done.
  destruct (on_ThreadPolicy_destroy rt); simpl; try done.
  by destruct (on_createAndActivateServers rt).
Qed.

(** C9. The constructor drops the status of [initORBandServers]. For every
    runtime, hence for every outcome of the bootstrap, the construction goes
    through, the singleton accessor returns the new server, and both
    registries hold the three built-in names. Nothing of what the caller
    gets tells how the bootstrap ended: with any other runtime the static
    pointer, the free stores, the other servers and every member of the new
    server but its private part are the same. *)
Theorem constructor_discards_bootstrap_status
    (rt : Runtime) (this : loc) (inHppPlanner : option loc)
    (argv : list string) (w : World) :
  exists w' self,
    ChppciServer_ctor rt this inHppPlanner argv w = Some w'
    /\ getInstance w' = Some this
    /\ servers w' !! this = Some self
    /\ Forall (fun name =>
                 steeringMethodFactoryAlreadySet self name = true
                 /\ distanceFactoryAlreadySet self name = true)
              ["linear"; "rs"; "flic"]
    /\ forall rt2 : Runtime,
         exists w2 self2,
           ChppciServer_ctor rt2 this inHppPlanner argv w = Some w2
           /\ getInstance w2 = getInstance w'
           /\ servers w2 !! this = Some self2
           /\ set_attPrivate None self2 = set_attPrivate None self
           /\ delete this (servers w2) = delete this (servers w')
           /\ steeringFactories w2 = steeringFactories w'
           /\ distanceFactories w2 = distanceFactories w'.
Proof.
  destruct (ChppciServer_ctor_eq rt this inHppPlanner argv w) as [p ->].
  eexists _, _. split; [reflexivity|]. cbn zeta.
  split; [reflexivity|].
  split; [apply lookup_insert_eq|].
  rewrite initMapDistanceFunctionFactory_eq, initMapSteeringMethodFactory_eq.
  cbn [fst snd].
  split.
  - repeat constructor;
      (apply steeringMethodFactoryAlreadySet_spec
       || apply distanceFactoryAlreadySet_spec);
      apply builtin_lookup; unfold builtin_names; set_solver.
  - intros rt2.
    destruct (ChppciServer_ctor_eq rt2 this inHppPlanner argv w) as [p2 ->].
    eexists _, _. split; [reflexivity|]. cbn zeta.
    rewrite initMapDistanceFunctionFactory_eq, initMapSteeringMethodFactory_eq.
    cbn [fst snd].
    split; [reflexivity|].
    split; [apply lookup_insert_eq|].
    split; [reflexivity|].
    split; [|done].
    cbn [servers]. by rewrite !delete_insert_eq.
Qed.

(** ** The singleton pointer *)

Lemma ChppciServer_ctor_instance rt this inHppPlanner argv w :
  exists w',
    ChppciServer_ctor rt this inHppPlanner argv w = Some w'
    /\ getInstance w' = Some this
    /\ is_Some (servers w' !! this).
Proof.
  destruct (ChppciServer_ctor_eq rt this inHppPlanner argv w) as [p ->].
  eexists. split; [reflexivity|]. cbn zeta. split; [reflexivity|].
  cbn [servers]. rewrite lookup_insert_eq. by eexists.
Qed.

Lemma ChppciServer_dtor_instance this w w' :
  ChppciServer_dtor this w = Some w' ->
  getInstance w' = None /\ servers w' = delete this (servers w).
Proof.
  unfold ChppciServer_dtor. intros Hdtor.
  repeat match type of Hdtor with
         | match ?x with _ => _ end = Some _ => destruct x; [|discriminate]
         end.
  by injection Hdtor as <-.
Qed.

Lemma step_instance_alive w op w' :
  step w op = Some w' -> instance_alive w'.
Proof.
  destruct op as [rt this inHppPlanner argv|this]; simpl.
  - destruct (servers w !! this); [done|].
    destruct (ChppciServer_ctor_instance rt this inHppPlanner argv w)
      as (w1 & -> & Hinst & Halive).
    intros [= <-] l. rewrite Hinst. by intros [= <-].
  - intros [Hinst _]%ChppciServer_dtor_instance l. by rewrite Hinst.
Qed.

Lemma steps_instance_alive ops : forall w w',
  instance_alive w -> steps w ops = Some w' -> instance_alive w'.
Proof.
  induction ops as [|op ops IH]; intros w w' Hw; simpl.
  - by intros [= <-].
  - destruct (step w op) as [w1|] eqn:Hstep; [|done].
    apply IH. by eapply step_instance_alive.
Qed.

Lemma steps_Destroy_only ops : forall w w',
  getInstance w = None ->
  forallb is_Destroy ops = true ->
  steps w ops = Some w' ->
  getInstance w' = None.
Proof.
  induction ops as [|op ops IH]; intros w w' Hnone Hops; simpl.
  - by intros [= <-].
  - simpl in Hops. apply andb_prop in Hops as [Hop Hops].
    destruct op as [|this]; [done|]. simpl.
    destruct (ChppciServer_dtor this w) as [w1|] eqn:Hdtor; [|done].
    apply IH; [|done]. by apply ChppciServer_dtor_instance in Hdtor as [? _].
Qed.

(** C8. The accessor returns the one address held by the static pointer.
    In every state the program reaches, that address, if any, is the address
    of a server that is alive. Constructing a server where none lives goes
    through and makes the accessor return the new server; after a server is
    destroyed the accessor returns the null pointer, and it keeps returning
    it as long as no server is constructed. *)
Theorem singleton_accessor :
  (forall ops w,
     steps program_start ops = Some w -> instance_alive w)
  /\ (forall w rt this inHppPlanner argv,
        servers w !! this = None ->
        exists w',
          step w (Construct rt this inHppPlanner argv) = Some w'
          /\ getInstance w' = Some this)
  /\ (forall w this w',
        step w (Destroy this) = Some w' -> getInstance w' = None)
  /\ (forall w ops w',
        getInstance w = None ->
        forallb is_Destroy ops = true ->
        steps w ops = Some w' ->
        getInstance w' = None).
Proof.
  split; [|split; [|split]].
  - intros ops w. apply steps_instance_alive. by intros l.
  - intros w rt this inHppPlanner argv Hfree. simpl. rewrite Hfree.
    destruct (ChppciServer_ctor_instance rt this inHppPlanner argv w)
      as (w' & -> & Hinst & _).
    by exists w'.
  - intros w this w' Hstep. by apply ChppciServer_dtor_instance in Hstep as [? _].
  - intros w ops w'. apply steps_Destroy_only.
Qed.

Lemma singleton_accessor_witness :
  (exists w1 w2 w3 w4,
     steps program_start demo_two_servers = Some w1
     /\ instance_alive w1
     /\ step w1 (Destroy 2%positive) = Some w2
     /\ getInstance w2 = None
     /\ steps w2 [Destroy 1%positive] = Some w3
     /\ getInstance w3 = None
     /\ step w3 (Construct demo_runtime 1%positive NULL []) = Some w4
     /\ getInstance w4 = Some 1%positive).
Proof.
  destruct singleton_accessor as (Halive & Hnew & Hdel & Hkeep).
  destruct (steps program_start demo_two_servers) as [w1|] eqn:H1;
    [|by vm_compute in H1].
  destruct (step w1 (Destroy 2%positive)) as [w2|] eqn:H2;
    [|by vm_compute in H1; injection H1 as <-; vm_compute in H2].
  destruct (steps w2 [Destroy 1%positive]) as [w3|] eqn:H3;
    [|by vm_compute in H1; injection H1 as <-;
         vm_compute in H2; injection H2 as <-; vm_compute in H3].
  assert (servers w3 !! 1%positive = None) as Hfree.
  { vm_compute in H1; injection H1 as <-.
    vm_compute in H2; injection H2 as <-.
    vm_compute in H3; injection H3 as <-. reflexivity. }
  destruct (Hnew w3 demo_runtime 1%positive NULL [] Hfree) as (w4 & H4 & Hinst).
  exists w1, w2, w3, w4.
  split; [reflexivity|].
  split; [exact (Halive _ _ H1)|].
  split; [exact H2|].
  split; [exact (Hdel _ _ _ H2)|].
  split; [exact H3|].
  split; [exact (Hkeep w2 [Destroy 1%positive] w3 (Hdel _ _ _ H2) eq_refl H3)|].
  split; [exact H4|exact Hinst].
Defined.

(** ** Binding the service objects *)

Lemma journal_activated p : journal (activated p) = journal p.
Proof. unfold activated. by destruct (poa p). Qed.

(** C5. When the creation of the context fails, or the binding of the
    robot, of the obstacle or of the problem object fails (by answering
    false or by throwing), [startCorbaServer] returns [KD_ERROR], the
    bindings that come after the failed step are not asked for, the manager
    of the adapter is not activated and the adapter is in the state it was
    in: the server does not start serving. *)
Theorem binding_failure_aborts
    (rt : Runtime) (this : ChppciServer) (p : ChppciServerPrivate) :
  attPrivate this = Some p ->
  failed (on_createHppContext rt)
  \/ failed (on_bindObjectToName rt robotServant robotName)
  \/ failed (on_bindObjectToName rt obstacleServant obstacleName)
  \/ failed (on_bindObjectToName rt problemServant problemName) ->
  exists (p' : ChppciServerPrivate) (calls : list Call),
    startCorbaServer rt this = Some (KD_ERROR, set_attPrivate (Some p') this)
    /\ journal p' = (journal p ++ calls)%list
    /\ poa p' = poa p
    /\ orb p' = orb p
    /\ (POAManager_activate ∉ calls)
    /\ (failed (on_createHppContext rt) -> bindings calls = [])
    /\ (failed (on_bindObjectToName rt robotServant robotName) ->
        bindings calls `prefix_of` [(robotServant, robotName)])
    /\ (failed (on_bindObjectToName rt obstacleServant obstacleName) ->
        bindings calls
        `prefix_of` [(robotServant, robotName); (obstacleServant, obstacleName)]).
Proof.
  intros Hp Hfail. unfold startCorbaServer.
  rewrite (through_attPrivate_Some _ _ _ Hp).
  unfold_try. unfold failed in *. simpl.
  fold robotName obstacleName problemName.
  repeat match goal with
         | |- context [match ?o with Returns _ => _ | Throws => _ end] =>
             destruct o as [[]|] eqn:?; simpl
         end.
  all: try (exfalso; intuition congruence).
  all: eexists _, _; split; [reflexivity|]; simpl.
  all: split; [rewrite <- ?app_assoc; reflexivity|].
  all: split; [reflexivity|split; [reflexivity|]].
  all: split; [not_in_calls|].
  all: simpl.
  all: repeat split; intros Hf; try (by destruct Hf); try reflexivity;
    try (by eexists).
Qed.

Lemma binding_failure_aborts_witness :
  exists (p' : ChppciServerPrivate) (calls : list Call),
    startCorbaServer obstacle_refused demo_bootstrapped
    = Some (KD_ERROR, set_attPrivate (Some p') demo_bootstrapped)
    /\ journal p' = (journal demo_private ++ calls)%list
    /\ poa p' = Some HOLDING
    /\ (POAManager_activate ∉ calls)
    /\ bindings calls
       `prefix_of` [(robotServant, robotName); (obstacleServant, obstacleName)].
Proof.
  destruct (binding_failure_aborts obstacle_refused demo_bootstrapped
              demo_private eq_refl)
    as (p' & calls & Hret & Hjournal & Hpoa & _ & Hactivate & _ & _ & Hobstacle).
  { right. right. left. discriminate. }
  exists p', calls.
  split; [exact Hret|]. split; [exact Hjournal|]. split; [exact Hpoa|].
  split; [exact Hactivate|]. apply Hobstacle. discriminate.
Defined.

(** C6. Whatever the runtime does, the bindings [startCorbaServer] asks for
    are, in this order and as far as it gets, the robot object under the
    one-component name of id ["Robot"], the obstacle object under
    ["Obstacle"] and the problem object under ["Problem"], the kind of
    each being ["Object"]; when it returns [KD_OK] all three have been asked
    for. *)
Theorem service_names
    (rt : Runtime) (this : ChppciServer) (p : ChppciServerPrivate) :
  attPrivate this = Some p ->
  exists (status : ktStatus) (p' : ChppciServerPrivate) (calls : list Call),
    startCorbaServer rt this = Some (status, set_attPrivate (Some p') this)
    /\ journal p' = (journal p ++ calls)%list
    /\ bindings calls
       `prefix_of`
         [(robotServant,
           [{| CosNaming.id := "Robot"; CosNaming.kind := "Object" |}]);
          (obstacleServant,
           [{| CosNaming.id := "Obstacle"; CosNaming.kind := "Object" |}]);
          (problemServant,
           [{| CosNaming.id := "Problem"; CosNaming.kind := "Object" |}])]
    /\ (status = KD_OK ->
        bindings calls
        = [(robotServant,
            [{| CosNaming.id := "Robot"; CosNaming.kind := "Object" |}]);
           (obstacleServant,
            [{| CosNaming.id := "Obstacle"; CosNaming.kind := "Object" |}]);
           (problemServant,
            [{| CosNaming.id := "Problem"; CosNaming.kind := "Object" |}])]).
Proof.
  intros Hp. unfold startCorbaServer.
  rewrite (through_attPrivate_Some _ _ _ Hp).
  unfold_try. simpl.
  repeat match goal with
         | |- context [match ?o with Returns _ => _ | Throws => _ end] =>
             destruct o as [[]|] eqn:?; simpl
         end.
  all: eexists _, _, _; split; [reflexivity|].
  all: rewrite ?journal_activated; simpl.
  all: split; [rewrite <- ?app_assoc; reflexivity|].
  all: simpl; split; [by eexists|]; by intros ?.
Qed.

Lemma service_names_witness :
  exists (p' : ChppciServerPrivate) (calls : list Call),
    startCorbaServer demo_runtime demo_bootstrapped
    = Some (KD_OK, set_attPrivate (Some p') demo_bootstrapped)
    /\ journal p' = (journal demo_private ++ calls)%list
    /\ bindings calls
       = [(robotServant,
           [{| CosNaming.id := "Robot"; CosNaming.kind := "Object" |}]);
          (obstacleServant,
           [{| CosNaming.id := "Obstacle"; CosNaming.kind := "Object" |}]);
          (problemServant,
           [{| CosNaming.id := "Problem"; CosNaming.kind := "Object" |}])].
Proof.
  destruct (service_names demo_runtime demo_bootstrapped demo_private eq_refl)
    as (status & p' & calls & Hret & Hjournal & _ & Hall).
  assert (status = KD_OK) as Hok.
  { vm_compute in Hret. by injection Hret as <- _. }
  exists p', calls. subst status.
  split; [exact Hret|]. split; [exact Hjournal|]. by apply Hall.
Defined.

(** ** Request processing *)

(** C7. With an ORB at hand, [processRequest(false)] returns 0. When no
    call waits it leaves the server as it is. When exactly one call waits it
    dispatches that call, which leaves none waiting. In every case it
    dispatches at most one call, and changes nothing of the server but the
    ORB. *)
Theorem polling_contract
    (this : ChppciServer) (p : ChppciServerPrivate) (o : ORB) :
  attPrivate this = Some p ->
  orb p = Some o ->
  (pending o = [] -> processRequest this false = Returned 0 this)
  /\ (forall r : Request,
        pending o = [r] ->
        processRequest this false
        = Returned 0
            (set_attPrivate
               (Some (set_orb
                        (Some {| pending := [];
                                 performed := performed o ++ [r];
                                 shut := shut o |})
                        p))
               this))
  /\ exists (this' : ChppciServer) (p' : ChppciServerPrivate) (o' : ORB),
       processRequest this false = Returned 0 this'
       /\ attPrivate this' = Some p'
       /\ orb p' = Some o'
       /\ (performed o' = performed o
           \/ exists r : Request, performed o' = performed o ++ [r])
       /\ set_orb None p' = set_orb None p
       /\ set_attPrivate None this' = set_attPrivate None this.
Proof.
  intros Hp Ho. unfold processRequest, work_pending, perform_work.
  rewrite Hp, Ho.
  split; [|split].
  - by intros ->.
  - by intros r ->.
  - destruct (pending o) as [|r rest].
    + exists this, p, o. by eauto 10.
    + eexists _, _, _. split; [reflexivity|]. simpl.
      split; [reflexivity|]. split; [reflexivity|]. simpl.
      split; [by eauto|]. done.
Qed.

Lemma polling_contract_witness :
  processRequest no_call_waiting false = Returned 0 no_call_waiting
  /\ processRequest one_call_waiting false
     = Returned 0
         (set_attPrivate
            (Some {| orb := Some {| pending := []; performed := [3; 7];
                                    shut := false |};
                     poa := Some ACTIVE; journal := []; console := [] |})
            demo_server).
Proof.
  split.
  - destruct (polling_contract no_call_waiting _ _ eq_refl eq_refl)
      as (Hnone & _).
    apply Hnone. reflexivity.
  - destruct (polling_contract one_call_waiting _ _ eq_refl eq_refl)
      as (_ & Hone & _).
    apply (Hone 7). reflexivity.
Defined.

(** In blocking mode the call stays in the ORB's loop as long as no
    shutdown is requested. *)
Lemma processRequest_blocks this p o :
  attPrivate this = Some p ->
  orb p = Some o ->
  shut o = false ->
  exists this', processRequest this true = Blocked this'.
Proof.
  intros Hp Ho Hshut. unfold processRequest, run.
  rewrite Hp, Ho, Hshut. by eexists.
Qed.

(** ** Destruction *)

(** The destructor leaves the free store of the distance factories as it
    finds it: no distance factory is ever released. *)
Lemma ChppciServer_dtor_distanceFactories this w w' :
  ChppciServer_dtor this w = Some w' ->
  distanceFactories w' = distanceFactories w.
Proof.
  unfold ChppciServer_dtor. intros Hdtor.
  repeat match type of Hdtor with
         | match ?x with _ => _ end = Some _ => destruct x; [|discriminate]
         end.
  by injection Hdtor as <-.
Qed.

(** C4. A server is constructed in a program that has allocated nothing,
    and destroyed. The three steering method factories it owned have been
    released. The three distance function factories it owned are still
    allocated, and no server is left to release them:
    [destroyDistanceFunctionFactories] is not called by the destructor. *)
Theorem destructor_leaks_distance_factories :
  steps program_start
    [Construct demo_runtime 1%positive NULL []; Destroy 1%positive]
  = Some {| s_hppciServer := NULL;
            servers := ∅;
            steeringFactories := ∅;
            distanceFactories :=
              {[ 1%positive := CkwsPlusLinearDistanceFactory;
                 2%positive := CkwsPlusRSDistanceFactory 1%Q;
                 3%positive := CkwsPlusApproxFlicDistanceFactory ]} |}.
Proof. vm_compute. reflexivity. Qed.

(** The steering side of the destructor does its work: the factories
    [initMapSteeringMethodFactory] allocates are the ones
    [destroySteeringMethodFactories] releases, each once. *)
Lemma cxx_delete_new {A : Type} (x : A) (store : gmap loc A) :
  cxx_delete (Some (new x store).1) (new x store).2 = Some store.
Proof.
  unfold new, cxx_delete; simpl. rewrite lookup_insert_eq. f_equal.
  apply delete_insert_id, not_elem_of_dom, is_fresh.
Qed.

Lemma builtin_to_list {V : Type} (a b c : V) :
  map_to_list (<["flic" := c]> (<["rs" := b]> (<["linear" := a]> ∅))
               : gmap string V)
  ≡ₚ [("flic", c); ("rs", b); ("linear", a)].
Proof.
  rewrite map_to_list_insert by done.
  rewrite map_to_list_insert by done.
  rewrite map_to_list_insert by done.
  by rewrite map_to_list_empty.
Qed.

Lemma destroy_after_initMapSteeringMethodFactory this store :
  attMapSteeringMethodFactory this = ∅ ->
  destroySteeringMethodFactories
    (initMapSteeringMethodFactory this store).1
    (initMapSteeringMethodFactory this store).2
  = Some store.
Proof.
  intros Hempty. rewrite initMapSteeringMethodFactory_eq.
  unfold destroySteeringMethodFactories.
  cbn [fst snd attMapSteeringMethodFactory set_attMapSteeringMethodFactory].
  rewrite Hempty.
  rewrite (delete_each_Permutation _ _ _
             (fmap_Permutation snd _ _ (builtin_to_list _ _ _))).
  cbn [fmap list_fmap snd].
  do 3 (rewrite delete_each_cons, cxx_delete_new; cbn [mbind option_bind]).
  reflexivity.
Qed.

(** [destroyDistanceFunctionFactories] would do the same for the distance
    factories, were it called. *)
Lemma destroy_after_initMapDistanceFunctionFactory this store :
  attMapDistanceFunctionFactory this = ∅ ->
  destroyDistanceFunctionFactories
    (initMapDistanceFunctionFactory this store).1
    (initMapDistanceFunctionFactory this store).2
  = Some store.
Proof.
  intros Hempty. rewrite initMapDistanceFunctionFactory_eq.
  unfold destroyDistanceFunctionFactories.
  cbn [fst snd attMapDistanceFunctionFactory set_attMapDistanceFunctionFactory].
  rewrite Hempty.
  rewrite (delete_each_Permutation _ _ _
             (fmap_Permutation snd _ _ (builtin_to_list _ _ _))).
  cbn [fmap list_fmap snd].
  do 3 (rewrite delete_each_cons, cxx_delete_new; cbn [mbind option_bind]).
  reflexivity.
Qed.

Lemma destroySteeringMethodFactories_set_attPrivate q this store :
  destroySteeringMethodFactories (set_attPrivate q this) store
  = destroySteeringMethodFactories this store.
Proof. reflexivity. Qed.

(** A server that is constructed and then destroyed leaves the free store
    of the steering factories as it was before the construction, and the
    free store of the distance factories as it was after. *)
Lemma ctor_then_dtor rt this inHppPlanner argv w w1 w2 :
  ChppciServer_ctor rt this inHppPlanner argv w = Some w1 ->
  ChppciServer_dtor this w1 = Some w2 ->
  steeringFactories w2 = steeringFactories w
  /\ distanceFactories w2 = distanceFactories w1.
Proof.
  intros Hctor Hdtor. split;
    [|by apply ChppciServer_dtor_distanceFactories in Hdtor].
  destruct (ChppciServer_ctor_eq rt this inHppPlanner argv w) as [p Heq].
  rewrite Heq in Hctor.
  match type of Hctor with
  | Some ?x = _ => assert (x = w1) as <- by congruence
  end.
  clear Hctor Heq. cbn zeta in Hdtor.
  unfold ChppciServer_dtor in Hdtor.
  cbn [servers steeringFactories] in Hdtor.
  rewrite lookup_insert_eq in Hdtor.
  rewrite initMapDistanceFunctionFactory_eq in Hdtor.
  cbn [fst attPrivate set_attMapDistanceFunctionFactory] in Hdtor.
  rewrite destroySteeringMethodFactories_set_attPrivate in Hdtor.
  change (destroySteeringMethodFactories (set_attMapDistanceFunctionFactory ?m ?s))
    with (destroySteeringMethodFactories s) in Hdtor.
  rewrite destroy_after_initMapSteeringMethodFactory in Hdtor by done.
  repeat match type of Hdtor with
         | match ?x with _ => _ end = Some _ => destruct x; [|discriminate]
         end.
  by injection Hdtor as <-.
Qed.

(** * Further properties *)

(** ** Registration and construction together *)

Lemma createSteeringMethod_present `{KW : KineoWorks} steering this inName
    inOriented l factory :
  attMapSteeringMethodFactory this !! inName = Some (Some l) ->
  steering !! l = Some factory ->
  createSteeringMethod steering this inName inOriented
  = Some (makeSteeringMethod factory inOriented, this).
Proof.
  intros Hin Hl. unfold createSteeringMethod.
  assert (steeringMethodFactoryAlreadySet this inName = true) as ->.
  { apply steeringMethodFactoryAlreadySet_spec. by eexists. }
  rewrite (map_subscript_present _ _ _ Hin). simpl. rewrite Hl.
  by rewrite set_attMapSteeringMethodFactory_id.
Qed.

Lemma createDistanceFunction_present `{KW : KineoWorks} distance this inName
    inOriented l factory :
  attMapDistanceFunctionFactory this !! inName = Some (Some l) ->
  distance !! l = Some factory ->
  createDistanceFunction distance this inName inOriented
  = Some (makeDistance factory inOriented, this).
Proof.
  intros Hin Hl. unfold createDistanceFunction.
  assert (distanceFactoryAlreadySet this inName = true) as ->.
  { apply distanceFactoryAlreadySet_spec. by eexists. }
  rewrite (map_subscript_present _ _ _ Hin). simpl. rewrite Hl.
  by rewrite set_attMapDistanceFunctionFactory_id.
Qed.

(** X1. A factory registered under a free name is the one construction on
    demand uses for that name afterwards: the result is what the factory
    makes for the given flag, and the construction leaves the server as the
    registration left it. Both registries. *)
Theorem register_then_construct `{KW : KineoWorks}
    (steering : gmap loc CkwsPlusSteeringMethodFactory)
    (distance : gmap loc CkwsPlusDistanceFactory)
    (this : ChppciServer) (inName : string) (l : loc) (inOriented : bool) :
  (forall factory,
     attMapSteeringMethodFactory this !! inName = None ->
     steering !! l = Some factory ->
     exists this',
       addSteeringMethodFactory this inName (Some l) = (true, this')
       /\ createSteeringMethod steering this' inName inOriented
          = Some (makeSteeringMethod factory inOriented, this'))
  /\ (forall factory,
        attMapDistanceFunctionFactory this !! inName = None ->
        distance !! l = Some factory ->
        exists this',
          addDistanceFactory this inName (Some l) = (true, this')
          /\ createDistanceFunction distance this' inName inOriented
             = Some (makeDistance factory inOriented, this')).
Proof.
  split; intros factory Hfree Hl; eexists; (split; [
    (apply addSteeringMethodFactory_absent || apply addDistanceFactory_absent);
    exact Hfree |]).
  - apply createSteeringMethod_present with (l := l); [|done].
    simpl. apply lookup_insert_eq.
  - apply createDistanceFunction_present with (l := l); [|done].
    simpl. apply lookup_insert_eq.
Qed.

Lemma register_then_construct_witness :
  (exists this',
     addSteeringMethodFactory demo_server "mine" (Some 1%positive) = (true, this')
     /\ createSteeringMethod (KW := demoKineoWorks) demo_steering this' "mine" false
        = Some (Some (CkwsPlusLinearSteeringMethodFactory, false), this'))
  /\ (exists this',
        addDistanceFactory demo_server "mine" (Some 2%positive) = (true, this')
        /\ createDistanceFunction (KW := demoKineoWorks) demo_distance this' "mine" true
           = Some (Some (CkwsPlusRSDistanceFactory 1%Q, true), this')).
Proof.
  split.
  - destruct (register_then_construct (KW := demoKineoWorks)
                demo_steering demo_distance demo_server "mine" 1%positive false)
      as [Hsteering _].
    apply (Hsteering CkwsPlusLinearSteeringMethodFactory); reflexivity.
  - destruct (register_then_construct (KW := demoKineoWorks)
                demo_steering demo_distance demo_server "mine" 2%positive true)
      as [_ Hdistance].
    apply (Hdistance (CkwsPlusRSDistanceFactory 1%Q)); reflexivity.
Defined.

Lemma addSteeringMethodFactory_union this inName factory :
  attMapSteeringMethodFactory (addSteeringMethodFactory this inName factory).2
  = attMapSteeringMethodFactory this ∪ {[ inName := factory ]}.
Proof.
  destruct (attMapSteeringMethodFactory this !! inName) as [v|] eqn:Hm.
  - rewrite addSteeringMethodFactory_present by (by eexists). simpl.
    apply map_eq. intros k. rewrite lookup_union.
    destruct (decide (k = inName)) as [->|Hne].
    + rewrite Hm, lookup_singleton_eq. done.
    + rewrite lookup_singleton_ne by done. by destruct (_ !! k).
  - rewrite addSteeringMethodFactory_absent by done. simpl.
    rewrite insert_union_singleton_r by done. done.
Qed.

Lemma addDistanceFactory_union this inName factory :
  attMapDistanceFunctionFactory (addDistanceFactory this inName factory).2
  = attMapDistanceFunctionFactory this ∪ {[ inName := factory ]}.
Proof.
  destruct (attMapDistanceFunctionFactory this !! inName) as [v|] eqn:Hm.
  - rewrite addDistanceFactory_present by (by eexists). simpl.
    apply map_eq. intros k. rewrite lookup_union.
    destruct (decide (k = inName)) as [->|Hne].
    + rewrite Hm, lookup_singleton_eq. done.
    + rewrite lookup_singleton_ne by done. by destruct (_ !! k).
  - rewrite addDistanceFactory_absent by done. simpl.
    rewrite insert_union_singleton_r by done. done.
Qed.

Lemma addSteeringMethodFactory_others this inName factory :
  set_attMapSteeringMethodFactory (attMapSteeringMethodFactory this)
    (addSteeringMethodFactory this inName factory).2 = this.
Proof.
  unfold addSteeringMethodFactory.
  destruct (steeringMethodFactoryAlreadySet this inName); by destruct this.
Qed.

Lemma addDistanceFactory_others this inName factory :
  set_attMapDistanceFunctionFactory (attMapDistanceFunctionFactory this)
    (addDistanceFactory this inName factory).2 = this.
Proof.
  unfold addDistanceFactory.
  destruct (distanceFactoryAlreadySet this inName); by destruct this.
Qed.

(** X2. The first registration of a name wins. After any list of
    registrations the steering registry is the registry before, completed
    for the names it did not hold by the first factory the list gives for
    each of them; nothing else of the server changes. The same holds for
    the distance registry. *)
Theorem first_registration_wins
    (regs : list (string * option loc)) (this : ChppciServer) :
  (attMapSteeringMethodFactory (addSteeringMethodFactories regs this).2
   = attMapSteeringMethodFactory this ∪ list_to_map regs
   /\ set_attMapSteeringMethodFactory (attMapSteeringMethodFactory this)
        (addSteeringMethodFactories regs this).2 = this)
  /\ (attMapDistanceFunctionFactory (addDistanceFactories regs this).2
      = attMapDistanceFunctionFactory this ∪ list_to_map regs
      /\ set_attMapDistanceFunctionFactory (attMapDistanceFunctionFactory this)
           (addDistanceFactories regs this).2 = this).
Proof.
  split.
  - revert this. induction regs as [|[inName factory] regs IH]; intros this.
    { simpl. rewrite (right_id_L ∅ (∪)). by destruct this. }
    simpl.
    pose proof (addSteeringMethodFactory_union this inName factory) as Hone.
    pose proof (addSteeringMethodFactory_others this inName factory) as Hrest.
    destruct (addSteeringMethodFactory this inName factory) as [ok this1].
    destruct (IH this1) as [Hmap Hsame].
    destruct (addSteeringMethodFactories regs this1) as [oks this2].
    simpl in *. split.
    + rewrite Hmap, Hone, <- (assoc_L (∪)).
      by rewrite <- insert_union_singleton_l.
    + etrans; [|exact Hrest]. by rewrite <- Hsame.
  - revert this. induction regs as [|[inName factory] regs IH]; intros this.
    { simpl. rewrite (right_id_L ∅ (∪)). by destruct this. }
    simpl.
    pose proof (addDistanceFactory_union this inName factory) as Hone.
    pose proof (addDistanceFactory_others this inName factory) as Hrest.
    destruct (addDistanceFactory this inName factory) as [ok this1].
    destruct (IH this1) as [Hmap Hsame].
    destruct (addDistanceFactories regs this1) as [oks this2].
    simpl in *. split.
    + rewrite Hmap, Hone, <- (assoc_L (∪)).
      by rewrite <- insert_union_singleton_l.
    + etrans; [|exact Hrest]. by rewrite <- Hsame.
Qed.

(** X3. A null factory pointer is registered like any other: the
    registration succeeds, the name counts as registered and can no longer
    be given a factory, and construction on demand for that name
    dereferences the null pointer, so that it has no defined result. Both
    registries. *)
Theorem null_factory_registration `{KW : KineoWorks}
    (steering : gmap loc CkwsPlusSteeringMethodFactory)
    (distance : gmap loc CkwsPlusDistanceFactory)
    (this : ChppciServer) (inName : string) (inOriented : bool) :
  (attMapSteeringMethodFactory this !! inName = None ->
   exists this',
     addSteeringMethodFactory this inName NULL = (true, this')
     /\ steeringMethodFactoryAlreadySet this' inName = true
     /\ (forall factory,
           addSteeringMethodFactory this' inName factory = (false, this'))
     /\ createSteeringMethod steering this' inName inOriented = None)
  /\ (attMapDistanceFunctionFactory this !! inName = None ->
      exists this',
        addDistanceFactory this inName NULL = (true, this')
        /\ distanceFactoryAlreadySet this' inName = true
        /\ (forall factory,
              addDistanceFactory this' inName factory = (false, this'))
        /\ createDistanceFunction distance this' inName inOriented = None).
Proof.
  split; intros Hfree; eexists; (split; [
    (apply addSteeringMethodFactory_absent || apply addDistanceFactory_absent);
    exact Hfree |]).
  - assert (steeringMethodFactoryAlreadySet
              (set_attMapSteeringMethodFactory
                 (<[inName := NULL]> (attMapSteeringMethodFactory this)) this)
              inName = true) as Hset.
    { apply steeringMethodFactoryAlreadySet_spec. simpl.
      rewrite lookup_insert_eq. by eexists. }
    split; [exact Hset|]. split.
    + intros factory. apply addSteeringMethodFactory_present.
      by apply steeringMethodFactoryAlreadySet_spec.
    + unfold createSteeringMethod. rewrite Hset.
      rewrite (map_subscript_present _ _ NULL); [done|].
      simpl. apply lookup_insert_eq.
  - assert (distanceFactoryAlreadySet
              (set_attMapDistanceFunctionFactory
                 (<[inName := NULL]> (attMapDistanceFunctionFactory this)) this)
              inName = true) as Hset.
    { apply distanceFactoryAlreadySet_spec. simpl.
      rewrite lookup_insert_eq. by eexists. }
    split; [exact Hset|]. split.
    + intros factory. apply addDistanceFactory_present.
      by apply distanceFactoryAlreadySet_spec.
    + unfold createDistanceFunction. rewrite Hset.
      rewrite (map_subscript_present _ _ NULL); [done|].
      simpl. apply lookup_insert_eq.
Qed.

Lemma null_factory_registration_witness :
  (exists this',
     addSteeringMethodFactory demo_server "none" NULL = (true, this')
     /\ addSteeringMethodFactory this' "none" (Some 1%positive) = (false, this')
     /\ createSteeringMethod (KW := demoKineoWorks) demo_steering this' "none" true
        = None)
  /\ (exists this',
        addDistanceFactory demo_server "none" NULL = (true, this')
        /\ addDistanceFactory this' "none" (Some 2%positive) = (false, this')
        /\ createDistanceFunction (KW := demoKineoWorks) demo_distance this' "none" true
           = None).
Proof.
  destruct (null_factory_registration (KW := demoKineoWorks)
              demo_steering demo_distance demo_server "none" true)
    as [Hsteering Hdistance].
  split.
  - destruct (Hsteering eq_refl) as (this' & Hadd & _ & Hagain & Hcreate).
    exists this'. split; [exact Hadd|]. split; [apply Hagain|exact Hcreate].
  - destruct (Hdistance eq_refl) as (this' & Hadd & _ & Hagain & Hcreate).
    exists this'. split; [exact Hadd|]. split; [apply Hagain|exact Hcreate].
Defined.

(** ** Releasing the factories *)

(** The loop over a list of entries whose names differ, no two of which
    hold the same address, and whose addresses are all allocated. *)
Lemma delete_each_entries {A : Type} (entries : list (string * option loc)) :
  forall store : gmap loc A,
    NoDup entries.*1 ->
    (forall n1 n2 l,
       (n1, Some l) ∈ entries -> (n2, Some l) ∈ entries -> n1 = n2) ->
    (forall n l, (n, Some l) ∈ entries -> is_Some (store !! l)) ->
    exists store',
      delete_each entries.*2 store = Some store'
      /\ (forall n l, (n, Some l) ∈ entries -> store' !! l = None)
      /\ (forall l, (forall n, (n, Some l) ∉ entries) -> store' !! l = store !! l).
Proof.
  induction entries as [|[n p] entries IH]; intros store Hnames Hinj Hlive.
  { exists store. split; [done|]. split; [|done].
    intros ? ? Hin. by apply elem_of_nil in Hin. }
  apply NoDup_cons in Hnames as [Hn Hnames]. simpl in Hn.
  assert (forall l, (n, Some l) ∉ entries) as Hfresh.
  { intros l Hin. apply Hn. apply list_elem_of_fmap. by exists (n, Some l). }
  destruct p as [k|]; simpl.
  - destruct (Hlive n k) as [x Hx]; [by left|]. rewrite Hx.
    assert (forall n', (n', Some k) ∉ entries) as Honce.
    { intros n' Hin.
      assert (n' = n) as -> by (eapply Hinj; [by right|by left]).
      by eapply Hfresh. }
    destruct (IH (delete k store)) as (store' & Hrun & Hgone & Hkept).
    + done.
    + intros n1 n2 l H1 H2. eapply Hinj; by right.
    + intros n' l Hin. rewrite lookup_delete_ne.
      * eapply Hlive. by right.
      * intros ->. by eapply Honce.
    + exists store'. split; [done|]. split.
      * intros n' l [[= -> ->]|Hin]%elem_of_cons; [|by eapply Hgone].
        rewrite Hkept by done. apply lookup_delete_eq.
      * intros l Hout. rewrite Hkept.
        -- apply lookup_delete_ne. intros ->. eapply Hout. by left.
        -- intros n' Hin. eapply Hout. by right.
  - destruct (IH store) as (store' & Hrun & Hgone & Hkept).
    + done.
    + intros n1 n2 l H1 H2. eapply Hinj; by right.
    + intros n' l Hin. eapply Hlive. by right.
    + exists store'. split; [done|]. split.
      * intros n' l [[=]|Hin]%elem_of_cons. by eapply Hgone.
      * intros l Hout. apply Hkept. intros n' Hin. eapply Hout. by right.
Qed.

(** An address that occurs twice in the list is deleted twice. *)
Lemma delete_each_twice {A : Type} l (ps : list (option loc)) (store : gmap loc A) :
  delete_each (Some l :: Some l :: ps) store = None.
Proof.
  simpl. destruct (store !! l); [|done]. by rewrite lookup_delete_eq.
Qed.

Lemma map_to_list_two {V : Type} (m : gmap string V) n1 n2 v1 v2 :
  n1 <> n2 -> m !! n1 = Some v1 -> m !! n2 = Some v2 ->
  exists rest, map_to_list m ≡ₚ (n1, v1) :: (n2, v2) :: rest.
Proof.
  intros Hne H1 H2.
  exists (map_to_list (delete n2 (delete n1 m))).
  rewrite (map_to_list_delete (delete n1 m) n2 v2)
    by (by rewrite lookup_delete_ne).
  by rewrite map_to_list_delete.
Qed.

(** X4. When every address a registry holds is allocated and no two names
    hold the same address, the destroy function goes through, releases
    every factory the registry holds and leaves every other object of the
    free store as it is; null entries are passed over. Both destroy
    functions. *)
Theorem destroy_releases_registered
    (this : ChppciServer)
    (steering : gmap loc CkwsPlusSteeringMethodFactory)
    (distance : gmap loc CkwsPlusDistanceFactory) :
  ((forall l, registered (attMapSteeringMethodFactory this) l ->
              is_Some (steering !! l)) ->
   (forall n1 n2 l,
      attMapSteeringMethodFactory this !! n1 = Some (Some l) ->
      attMapSteeringMethodFactory this !! n2 = Some (Some l) -> n1 = n2) ->
   exists steering',
     destroySteeringMethodFactories this steering = Some steering'
     /\ (forall l, registered (attMapSteeringMethodFactory this) l ->
                   steering' !! l = None)
     /\ (forall l, ~ registered (attMapSteeringMethodFactory this) l ->
                   steering' !! l = steering !! l))
  /\ ((forall l, registered (attMapDistanceFunctionFactory this) l ->
                 is_Some (distance !! l)) ->
      (forall n1 n2 l,
         attMapDistanceFunctionFactory this !! n1 = Some (Some l) ->
         attMapDistanceFunctionFactory this !! n2 = Some (Some l) -> n1 = n2) ->
      exists distance',
        destroyDistanceFunctionFactories this distance = Some distance'
        /\ (forall l, registered (attMapDistanceFunctionFactory this) l ->
                      distance' !! l = None)
        /\ (forall l, ~ registered (attMapDistanceFunctionFactory this) l ->
                      distance' !! l = distance !! l)).
Proof.
  unfold destroySteeringMethodFactories, destroyDistanceFunctionFactories,
    registered.
  split; intros Hlive Hinj.
  - destruct (delete_each_entries
                (map_to_list (attMapSteeringMethodFactory this)) steering)
      as (store' & Hrun & Hgone & Hkept).
    + apply NoDup_fst_map_to_list.
    + intros n1 n2 l H1%elem_of_map_to_list H2%elem_of_map_to_list. eauto.
    + intros n l Hin%elem_of_map_to_list. eauto.
    + exists store'. split; [done|]. split.
      * intros l [n Hn]. eapply Hgone. by apply elem_of_map_to_list.
      * intros l Hout. apply Hkept. intros n Hin%elem_of_map_to_list. eauto.
  - destruct (delete_each_entries
                (map_to_list (attMapDistanceFunctionFactory this)) distance)
      as (store' & Hrun & Hgone & Hkept).
    + apply NoDup_fst_map_to_list.
    + intros n1 n2 l H1%elem_of_map_to_list H2%elem_of_map_to_list. eauto.
    + intros n l Hin%elem_of_map_to_list. eauto.
    + exists store'. split; [done|]. split.
      * intros l [n Hn]. eapply Hgone. by apply elem_of_map_to_list.
      * intros l Hout. apply Hkept. intros n Hin%elem_of_map_to_list. eauto.
Qed.

Lemma destroy_releases_registered_witness :
  (exists steering',
     destroySteeringMethodFactories demo_server demo_steering = Some steering'
     /\ steering' !! 1%positive = None)
  /\ (exists distance',
        destroyDistanceFunctionFactories demo_server demo_distance = Some distance'
        /\ distance' !! 2%positive = None).
Proof.
  destruct (destroy_releases_registered demo_server demo_steering demo_distance)
    as [Hsteering Hdistance].
  split.
  - destruct Hsteering as (steering' & Hrun & Hgone & _).
    + intros l [name Hname]. simpl in Hname.
      apply lookup_singleton_Some in Hname as [_ [= <-]]. by eexists.
    + intros n1 n2 l H1 H2. simpl in H1, H2.
      apply lookup_singleton_Some in H1 as [<- _].
      by apply lookup_singleton_Some in H2 as [<- _].
    + exists steering'. split; [exact Hrun|]. apply Hgone. by exists "linear".
  - destruct Hdistance as (distance' & Hrun & Hgone & _).
    + intros l [name Hname]. simpl in Hname.
      apply lookup_singleton_Some in Hname as [_ [= <-]]. by eexists.
    + intros n1 n2 l H1 H2. simpl in H1, H2.
      apply lookup_singleton_Some in H1 as [<- _].
      by apply lookup_singleton_Some in H2 as [<- _].
    + exists distance'. split; [exact Hrun|]. apply Hgone. by exists "rs".
Defined.

(** X5. When two names of a registry hold the same address, the destroy
    function deletes that object twice: it has no defined result, whatever
    the free store. Both destroy functions. *)
Theorem destroy_shared_factory
    (this : ChppciServer) (n1 n2 : string) (l : loc)
    (steering : gmap loc CkwsPlusSteeringMethodFactory)
    (distance : gmap loc CkwsPlusDistanceFactory) :
  n1 <> n2 ->
  (attMapSteeringMethodFactory this !! n1 = Some (Some l) ->
   attMapSteeringMethodFactory this !! n2 = Some (Some l) ->
   destroySteeringMethodFactories this steering = None)
  /\ (attMapDistanceFunctionFactory this !! n1 = Some (Some l) ->
      attMapDistanceFunctionFactory this !! n2 = Some (Some l) ->
      destroyDistanceFunctionFactories this distance = None).
Proof.
  intros Hne.
  unfold destroySteeringMethodFactories, destroyDistanceFunctionFactories.
  split; intros H1 H2.
  - destruct (map_to_list_two _ _ _ _ _ Hne H1 H2) as [rest Hperm].
    rewrite (delete_each_Permutation _ _ _ (fmap_Permutation snd _ _ Hperm)).
    apply delete_each_twice.
  - destruct (map_to_list_two _ _ _ _ _ Hne H1 H2) as [rest Hperm].
    rewrite (delete_each_Permutation _ _ _ (fmap_Permutation snd _ _ Hperm)).
    apply delete_each_twice.
Qed.

Lemma destroy_shared_factory_witness :
  destroySteeringMethodFactories shared_server demo_steering = None
  /\ destroyDistanceFunctionFactories shared_server demo_distance = None.
Proof.
  assert ("a" <> "b") as Hne by discriminate.
  split.
  - apply (destroy_shared_factory shared_server "a" "b" 1%positive
             demo_steering demo_distance Hne); reflexivity.
  - apply (destroy_shared_factory shared_server "a" "b" 2%positive
             demo_steering demo_distance Hne); reflexivity.
Defined.

(** ** More on construction and destruction *)

Lemma new_lookup_self {A : Type} (x : A) (store : gmap loc A) :
  (new x store).2 !! (new x store).1 = Some x.
Proof. rewrite new_lookup. by rewrite decide_True. Qed.

Lemma new_lookup_old {A : Type} (x y : A) (store : gmap loc A) l :
  store !! l = Some y -> (new x store).2 !! l = Some y.
Proof.
  intros Hl. rewrite new_lookup. rewrite decide_False; [done|].
  intros <-. by rewrite new_fresh in Hl.
Qed.

Lemma new_size {A : Type} (x : A) (store : gmap loc A) :
  size (new x store).2 = S (size store).
Proof.
  unfold new; simpl. apply map_size_insert_None, not_elem_of_dom, is_fresh.
Qed.

Lemma through_attPrivate_inv {R : Type}
    (f : ChppciServerPrivate -> ChppciServerPrivate * R) this r this' :
  through_attPrivate f this = Some (r, this') ->
  exists p p',
    attPrivate this = Some p
    /\ this' = set_attPrivate (Some p') this
    /\ f p = (p', r).
Proof.
  unfold through_attPrivate. destruct (attPrivate this) as [p|]; [|done].
  destruct (f p) as [p' r'] eqn:Hf. intros [= <- <-]. by exists p, p'.
Qed.

(** The constructor, with the result of [initORBandServers] in view. *)
Lemma ChppciServer_ctor_private rt this inHppPlanner argv w :
  let self0 :=
    {| hppPlanner := inHppPlanner; attPrivate := Some ChppciServerPrivate_new;
       attMapSteeringMethodFactory := ∅;
       attMapDistanceFunctionFactory := ∅ |} in
  exists status p,
    initORBandServers rt argv self0 = Some (status, set_attPrivate (Some p) self0)
    /\ ChppciServer_ctor rt this inHppPlanner argv w
       = Some
           (let steering :=
              initMapSteeringMethodFactory (set_attPrivate (Some p) self0)
                (steeringFactories w) in
            let distance :=
              initMapDistanceFunctionFactory steering.1 (distanceFactories w) in
            {| s_hppciServer := Some this;
               servers := <[this := distance.1]> (servers w);
               steeringFactories := steering.2;
               distanceFactories := distance.2 |}).
Proof.
  intros self0. unfold ChppciServer_ctor.
  change (set_attPrivate (Some ChppciServerPrivate_new) _) with self0.
  destruct (initORBandServers rt argv self0) as [[status self1]|] eqn:Hinit.
  - pose proof Hinit as Hinv. unfold initORBandServers in Hinv.
    apply through_attPrivate_inv in Hinv as (p & p' & _ & -> & _).
    exists status, p'. split; [reflexivity|].
    cbn zeta.
    destruct (initMapSteeringMethodFactory _ _) as [self1 steering].
    cbn [fst snd].
    by destruct (initMapDistanceFunctionFactory _ _) as [self2 distance].
  - unfold initORBandServers in Hinit.
    by rewrite (through_attPrivate_Some _ _ ChppciServerPrivate_new) in Hinit.
Qed.

(** The ORB reference after [initORBandServers] is what [ORB_init]
    returned; it is left as it was when [ORB_init] throws. *)
Lemma initORBandServers_orb rt argv this p status this' p' :
  initORBandServers rt argv this = Some (status, this') ->
  attPrivate this = Some p ->
  attPrivate this' = Some p' ->
  orb p' = match on_ORB_init rt argv with
           | Returns o => o
           | Throws => orb p
           end.
Proof.
  intros Hinit Hp Hp'. unfold initORBandServers in Hinit.
  apply through_attPrivate_inv in Hinit as (q & q' & Hq & -> & Hf).
  simpl in Hp'. assert (q = p) as -> by congruence.
  assert (q' = p') as -> by congruence.
  change p' with (p', status).1. rewrite <- Hf. clear Hf Hp'.
  unfold_try. simpl.
  destruct (on_ORB_init rt argv) as [[o|]|]; simpl; try done.
  repeat match goal with
         | |- context [match ?o with Returns _ => _ | Throws => _ end] =>
             destruct o as [[]|]; simpl
         end; done.
Qed.

Lemma initMapSteeringMethodFactory_built this store :
  exists l1 l2 l3,
    attMapSteeringMethodFactory (initMapSteeringMethodFactory this store).1
    = <["flic" := Some l3]>
        (<["rs" := Some l2]>
           (<["linear" := Some l1]> (attMapSteeringMethodFactory this)))
    /\ (initMapSteeringMethodFactory this store).2 !! l1
       = Some CkwsPlusLinearSteeringMethodFactory
    /\ (initMapSteeringMethodFactory this store).2 !! l2
       = Some (CkwsPlusRSSteeringMethodFactory 1%Q)
    /\ (initMapSteeringMethodFactory this store).2 !! l3
       = Some CkwsPlusFlicSteeringMethodFactory
    /\ (forall l f, store !! l = Some f ->
                    (initMapSteeringMethodFactory this store).2 !! l = Some f)
    /\ size (initMapSteeringMethodFactory this store).2 = size store + 3
    /\ set_attMapSteeringMethodFactory (attMapSteeringMethodFactory this)
         (initMapSteeringMethodFactory this store).1 = this.
Proof.
  rewrite initMapSteeringMethodFactory_eq. cbn [fst snd].
  eexists _, _, _. split; [reflexivity|].
  split; [by do 2 apply new_lookup_old; apply new_lookup_self|].
  split; [by apply new_lookup_old; apply new_lookup_self|].
  split; [by apply new_lookup_self|].
  split; [by intros l f Hl; do 3 apply new_lookup_old|].
  split; [rewrite !new_size; lia|by destruct this].
Qed.

Lemma initMapDistanceFunctionFactory_built this store :
  exists l1 l2 l3,
    attMapDistanceFunctionFactory (initMapDistanceFunctionFactory this store).1
    = <["flic" := Some l3]>
        (<["rs" := Some l2]>
           (<["linear" := Some l1]> (attMapDistanceFunctionFactory this)))
    /\ (initMapDistanceFunctionFactory this store).2 !! l1
       = Some CkwsPlusLinearDistanceFactory
    /\ (initMapDistanceFunctionFactory this store).2 !! l2
       = Some (CkwsPlusRSDistanceFactory 1%Q)
    /\ (initMapDistanceFunctionFactory this store).2 !! l3
       = Some CkwsPlusApproxFlicDistanceFactory
    /\ (forall l f, store !! l = Some f ->
                    (initMapDistanceFunctionFactory this store).2 !! l = Some f)
    /\ size (initMapDistanceFunctionFactory this store).2 = size store + 3
    /\ set_attMapDistanceFunctionFactory (attMapDistanceFunctionFactory this)
         (initMapDistanceFunctionFactory this store).1 = this.
Proof.
  rewrite initMapDistanceFunctionFactory_eq. cbn [fst snd].
  eexists _, _, _. split; [reflexivity|].
  split; [by do 2 apply new_lookup_old; apply new_lookup_self|].
  split; [by apply new_lookup_old; apply new_lookup_self|].
  split; [by apply new_lookup_self|].
  split; [by intros l f Hl; do 3 apply new_lookup_old|].
  split; [rewrite !new_size; lia|by destruct this].
Qed.

(** What the constructor builds, field by field. *)
Lemma ChppciServer_ctor_built rt this inHppPlanner argv w :
  exists status p self w',
    initORBandServers rt argv
      {| hppPlanner := inHppPlanner; attPrivate := Some ChppciServerPrivate_new;
         attMapSteeringMethodFactory := ∅;
         attMapDistanceFunctionFactory := ∅ |}
    = Some (status,
            {| hppPlanner := inHppPlanner; attPrivate := Some p;
               attMapSteeringMethodFactory := ∅;
               attMapDistanceFunctionFactory := ∅ |})
    /\ ChppciServer_ctor rt this inHppPlanner argv w = Some w'
    /\ s_hppciServer w' = Some this
    /\ servers w' = <[this := self]> (servers w)
    /\ hppPlanner self = inHppPlanner
    /\ attPrivate self = Some p
    /\ (exists l1 l2 l3,
          attMapSteeringMethodFactory self
          = <["flic" := Some l3]> (<["rs" := Some l2]> (<["linear" := Some l1]> ∅))
          /\ steeringFactories w' !! l1 = Some CkwsPlusLinearSteeringMethodFactory
          /\ steeringFactories w' !! l2 = Some (CkwsPlusRSSteeringMethodFactory 1%Q)
          /\ steeringFactories w' !! l3 = Some CkwsPlusFlicSteeringMethodFactory)
    /\ (exists l1 l2 l3,
          attMapDistanceFunctionFactory self
          = <["flic" := Some l3]> (<["rs" := Some l2]> (<["linear" := Some l1]> ∅))
          /\ distanceFactories w' !! l1 = Some CkwsPlusLinearDistanceFactory
          /\ distanceFactories w' !! l2 = Some (CkwsPlusRSDistanceFactory 1%Q)
          /\ distanceFactories w' !! l3 = Some CkwsPlusApproxFlicDistanceFactory)
    /\ (forall l f, steeringFactories w !! l = Some f ->
                    steeringFactories w' !! l = Some f)
    /\ (forall l f, distanceFactories w !! l = Some f ->
                    distanceFactories w' !! l = Some f)
    /\ size (steeringFactories w') = size (steeringFactories w) + 3
    /\ size (distanceFactories w') = size (distanceFactories w) + 3
    /\ destroySteeringMethodFactories self (steeringFactories w')
       = Some (steeringFactories w).
Proof.
  destruct (ChppciServer_ctor_private rt this inHppPlanner argv w)
    as (status & p & Hinit & Hctor).
  cbn zeta in Hinit, Hctor.
  change (set_attPrivate (Some p) _)
    with {| hppPlanner := inHppPlanner; attPrivate := Some p;
            attMapSteeringMethodFactory := ∅;
            attMapDistanceFunctionFactory := ∅ |} in Hinit, Hctor.
  set (self0 := {| hppPlanner := inHppPlanner; attPrivate := Some p;
                   attMapSteeringMethodFactory := ∅;
                   attMapDistanceFunctionFactory := ∅ |}) in *.
  destruct (initMapSteeringMethodFactory_built self0 (steeringFactories w))
    as (s1 & s2 & s3 & Hsm & Hs1 & Hs2 & Hs3 & Hsold & Hssize & Hsrest).
  pose proof (destroy_after_initMapSteeringMethodFactory
                self0 (steeringFactories w) eq_refl) as Hdestroy.
  destruct (initMapSteeringMethodFactory self0 (steeringFactories w))
    as [self1 steering] eqn:Hsteer.
  cbn [fst snd] in *.
  destruct (initMapDistanceFunctionFactory_built self1 (distanceFactories w))
    as (d1 & d2 & d3 & Hdm & Hd1 & Hd2 & Hd3 & Hdold & Hdsize & Hdrest).
  destruct (initMapDistanceFunctionFactory self1 (distanceFactories w))
    as [self2 distance] eqn:Hdist.
  cbn [fst snd] in *.
  pose proof (f_equal hppPlanner Hsrest) as Hpl1.
  pose proof (f_equal attPrivate Hsrest) as Hpr1.
  pose proof (f_equal attMapDistanceFunctionFactory Hsrest) as Hdm1.
  pose proof (f_equal hppPlanner Hdrest) as Hpl2.
  pose proof (f_equal attPrivate Hdrest) as Hpr2.
  pose proof (f_equal attMapSteeringMethodFactory Hdrest) as Hsm2.
  simpl in Hpl1, Hpr1, Hdm1, Hpl2, Hpr2, Hsm2.
  eexists status, p, self2, _. split; [exact Hinit|]. split; [exact Hctor|].
  cbn [s_hppciServer servers steeringFactories distanceFactories].
  split; [done|]. split; [done|].
  split; [congruence|]. split; [congruence|].
  split.
  { exists s1, s2, s3. split; [|done]. by rewrite Hsm2, Hsm. }
  split.
  { exists d1, d2, d3. split; [|done]. by rewrite Hdm, Hdm1. }
  split; [done|]. split; [done|]. split; [done|]. split; [done|].
  rewrite <- Hdestroy. unfold destroySteeringMethodFactories. by rewrite Hsm2.
Qed.

(** X6. In the server the constructor builds, whatever the runtime did,
    ["linear"], ["rs"] and ["flic"] construct with the linear factory, the
    Reeds and Shepp factory of radius 1 and the flic factory (the
    approximate flic factory for distances), with the flag passed on; and
    no registration under one of these names is accepted, so that the
    built-in factories cannot be replaced. *)
Theorem builtin_factories `{KW : KineoWorks}
    (rt : Runtime) (this : loc) (inHppPlanner : option loc)
    (argv : list string) (w : World) :
  exists w' self,
    ChppciServer_ctor rt this inHppPlanner argv w = Some w'
    /\ servers w' !! this = Some self
    /\ (forall inOriented : bool,
          createSteeringMethod (steeringFactories w') self "linear" inOriented
          = Some (makeSteeringMethod CkwsPlusLinearSteeringMethodFactory inOriented,
                  self)
          /\ createSteeringMethod (steeringFactories w') self "rs" inOriented
             = Some (makeSteeringMethod (CkwsPlusRSSteeringMethodFactory 1%Q)
                       inOriented, self)
          /\ createSteeringMethod (steeringFactories w') self "flic" inOriented
             = Some (makeSteeringMethod CkwsPlusFlicSteeringMethodFactory inOriented,
                     self)
          /\ createDistanceFunction (distanceFactories w') self "linear" inOriented
             = Some (makeDistance CkwsPlusLinearDistanceFactory inOriented, self)
          /\ createDistanceFunction (distanceFactories w') self "rs" inOriented
             = Some (makeDistance (CkwsPlusRSDistanceFactory 1%Q) inOriented, self)
          /\ createDistanceFunction (distanceFactories w') self "flic" inOriented
             = Some (makeDistance CkwsPlusApproxFlicDistanceFactory inOriented,
                     self))
    /\ (forall factory : option loc,
          Forall (fun name =>
                    addSteeringMethodFactory self name factory = (false, self)
                    /\ addDistanceFactory self name factory = (false, self))
                 ["linear"; "rs"; "flic"]).
Proof.
  destruct (ChppciServer_ctor_built rt this inHppPlanner argv w)
    as (status & p & self & w' & _ & Hctor & _ & Hservers & _ & _
        & (s1 & s2 & s3 & Hsm & Hs1 & Hs2 & Hs3)
        & (d1 & d2 & d3 & Hdm & Hd1 & Hd2 & Hd3) & _).
  exists w', self. split; [exact Hctor|].
  split; [by rewrite Hservers, lookup_insert_eq|].
  split.
  - intros inOriented.
    split; [by apply createSteeringMethod_present with (l := s1); [rewrite Hsm|]|].
    split; [by apply createSteeringMethod_present with (l := s2); [rewrite Hsm|]|].
    split; [by apply createSteeringMethod_present with (l := s3); [rewrite Hsm|]|].
    split; [by apply createDistanceFunction_present with (l := d1); [rewrite Hdm|]|].
    split; [by apply createDistanceFunction_present with (l := d2); [rewrite Hdm|]|].
    by apply createDistanceFunction_present with (l := d3); [rewrite Hdm|].
  - intros factory. apply Forall_forall. intros name Hin.
    split;
      [apply addSteeringMethodFactory_present; rewrite Hsm
      |apply addDistanceFactory_present; rewrite Hdm];
      by apply builtin_lookup.
Qed.

(** X7. The constructor stores the planner pointer it is given, null or
    not, for [getHppPlanner] to return; it allocates three factories in each
    free store and leaves the factories that were there, and the other
    servers, as they are. *)
Theorem constructor_frame
    (rt : Runtime) (this : loc) (inHppPlanner : option loc)
    (argv : list string) (w : World) :
  exists w',
    ChppciServer_ctor rt this inHppPlanner argv w = Some w'
    /\ getHppPlanner <$> servers w' !! this = Some inHppPlanner
    /\ (forall l, l <> this -> servers w' !! l = servers w !! l)
    /\ (forall l f, steeringFactories w !! l = Some f ->
                    steeringFactories w' !! l = Some f)
    /\ (forall l f, distanceFactories w !! l = Some f ->
                    distanceFactories w' !! l = Some f)
    /\ size (steeringFactories w') = size (steeringFactories w) + 3
    /\ size (distanceFactories w') = size (distanceFactories w) + 3.
Proof.
  destruct (ChppciServer_ctor_built rt this inHppPlanner argv w)
    as (status & p & self & w' & _ & Hctor & _ & Hservers & Hplanner & _
        & _ & _ & Hsold & Hdold & Hssize & Hdsize & _).
  exists w'. split; [exact Hctor|].
  split; [by rewrite Hservers, lookup_insert_eq; simpl; rewrite <- Hplanner|].
  split; [by intros l Hne; rewrite Hservers, lookup_insert_ne|].
  done.
Qed.

(** X8. When [ORB_init] gives an ORB, a server constructed at a free
    address can be destroyed, and the destruction undoes the construction
    as far as the servers, the singleton pointer of a program without other
    servers and the steering factories go: each of the three steering
    factories is released once and the free store of the steering factories
    is what it was. *)
Theorem construct_destroy_round_trip
    (rt : Runtime) (this : loc) (inHppPlanner : option loc)
    (argv : list string) (w : World) (o : ORB) :
  on_ORB_init rt argv = Returns (Some o) ->
  servers w !! this = None ->
  exists w1 w2,
    ChppciServer_ctor rt this inHppPlanner argv w = Some w1
    /\ ChppciServer_dtor this w1 = Some w2
    /\ servers w2 = servers w
    /\ steeringFactories w2 = steeringFactories w
    /\ getInstance w2 = NULL.
Proof.
  intros Horb Hfree.
  destruct (ChppciServer_ctor_built rt this inHppPlanner argv w)
    as (status & p & self & w1 & Hinit & Hctor & _ & Hservers & _ & Hprivate
        & _ & _ & _ & _ & _ & _ & Hdestroy).
  pose proof (initORBandServers_orb _ _ _ _ _ _ _ Hinit eq_refl eq_refl) as Hp.
  cbn [orb ChppciServerPrivate_new] in Hp.
  rewrite Horb in Hp.
  exists w1. eexists. split; [exact Hctor|].
  unfold ChppciServer_dtor.
  rewrite Hservers, lookup_insert_eq, Hprivate. cbn [orb record_call].
  rewrite Hp, destroySteeringMethodFactories_set_attPrivate, Hdestroy.
  split; [reflexivity|]. cbn [servers steeringFactories getInstance s_hppciServer].
  split; [by apply delete_insert_id|done].
Qed.

Lemma construct_destroy_round_trip_witness :
  exists w1 w2,
    ChppciServer_ctor demo_runtime 1%positive NULL [] program_start = Some w1
    /\ ChppciServer_dtor 1%positive w1 = Some w2
    /\ servers w2 = ∅
    /\ steeringFactories w2 = ∅
    /\ getInstance w2 = NULL.
Proof.
  exact (construct_destroy_round_trip demo_runtime 1%positive NULL []
           program_start _ eq_refl eq_refl).
Defined.

(** X9. When [ORB_init] throws or gives a nil reference, the constructor
    still builds the server, and the server has no ORB: its destructor and
    its [processRequest], which both call the ORB without a test, have no
    defined result. *)
Theorem server_without_orb
    (rt : Runtime) (this : loc) (inHppPlanner : option loc)
    (argv : list string) (w : World) :
  on_ORB_init rt argv = Throws \/ on_ORB_init rt argv = Returns None ->
  exists w1 self,
    ChppciServer_ctor rt this inHppPlanner argv w = Some w1
    /\ servers w1 !! this = Some self
    /\ ChppciServer_dtor this w1 = None
    /\ forall loop : bool, processRequest self loop = Undefined.
Proof.
  intros Horb.
  destruct (ChppciServer_ctor_built rt this inHppPlanner argv w)
    as (status & p & self & w1 & Hinit & Hctor & _ & Hservers & _ & Hprivate & _).
  pose proof (initORBandServers_orb _ _ _ _ _ _ _ Hinit eq_refl eq_refl) as Hp.
  cbn [orb ChppciServerPrivate_new] in Hp.
  assert (orb p = None) as Hnil by (by destruct Horb as [Ho|Ho]; rewrite Ho in Hp).
  exists w1, self. split; [exact Hctor|].
  split; [by rewrite Hservers, lookup_insert_eq|].
  split.
  - unfold ChppciServer_dtor.
    rewrite Hservers, lookup_insert_eq, Hprivate. cbn [orb record_call].
    by rewrite Hnil.
  - intros loop. unfold processRequest. by rewrite Hprivate, Hnil.
Qed.

Lemma server_without_orb_witness :
  exists w1 self,
    ChppciServer_ctor orb_refused 1%positive NULL [] program_start = Some w1
    /\ servers w1 !! 1%positive = Some self
    /\ ChppciServer_dtor 1%positive w1 = None
    /\ processRequest self false = Undefined.
Proof.
  destruct (server_without_orb orb_refused 1%positive NULL [] program_start)
    as (w1 & self & Hctor & Hself & Hdtor & Hprocess).
  { by left. }
  exists w1, self. split; [exact Hctor|]. split; [exact Hself|].
  split; [exact Hdtor|apply Hprocess].
Defined.

(** X10. The destructor sets the singleton pointer to null whichever server
    is destroyed: while another server is alive and untouched, the accessor
    returns the null pointer and not that server. *)
Theorem destructor_clears_instance
    (w : World) (this other : loc) (w' : World) :
  this <> other ->
  is_Some (servers w !! other) ->
  ChppciServer_dtor this w = Some w' ->
  getInstance w' = NULL /\ servers w' !! other = servers w !! other.
Proof.
  intros Hne Halive Hdtor.
  apply ChppciServer_dtor_instance in Hdtor as [Hinst ->].
  split; [done|]. by apply lookup_delete_ne.
Qed.

Lemma destructor_clears_instance_witness :
  exists w1 w2,
    steps program_start demo_two_servers = Some w1
    /\ ChppciServer_dtor 2%positive w1 = Some w2
    /\ getInstance w2 = NULL
    /\ is_Some (servers w2 !! 1%positive).
Proof.
  destruct (steps program_start demo_two_servers) as [w1|] eqn:H1;
    [|by vm_compute in H1].
  destruct (ChppciServer_dtor 2%positive w1) as [w2|] eqn:H2;
    [|by vm_compute in H1; injection H1 as <-; vm_compute in H2].
  assert (is_Some (servers w1 !! 1%positive)) as Halive.
  { vm_compute in H1. injection H1 as <-. by eexists. }
  assert (2%positive <> 1%positive) as Hne by discriminate.
  destruct (destructor_clears_instance w1 2%positive 1%positive w2
              Hne Halive H2) as [Hinst Hother].
  exists w1, w2. split; [reflexivity|]. split; [exact H2|].
  split; [exact Hinst|]. destruct Halive as [x Hx]. exists x.
  exact (eq_trans Hother Hx).
Defined.

(** ** More on the bootstrap and on the binding step *)

(** X11. [initORBandServers] returns [KD_OK] exactly when [ORB_init] gives
    a non-nil ORB, none of the ORB steps throws and
    [createAndActivateServers] returns [KD_OK]; the ORB reference is then
    not nil, the child adapter exists with its manager holding, and nothing
    was written to the error stream. *)
Theorem bootstrap_status
    (rt : Runtime) (argv : list string) (this : ChppciServer)
    (p : ChppciServerPrivate) :
  attPrivate this = Some p ->
  exists status p',
    initORBandServers rt argv this = Some (status, set_attPrivate (Some p') this)
    /\ (status = KD_OK <-> bootstrap_succeeds rt argv = true)
    /\ (status = KD_OK ->
        is_Some (orb p') /\ poa p' = Some HOLDING /\ console p' = console p).
Proof.
  intros Hp. unfold initORBandServers.
  rewrite (through_attPrivate_Some _ _ _ Hp).
  eexists _, _. split; [reflexivity|].
  unfold bootstrap_succeeds, returns. unfold_try. simpl.
  destruct (on_ORB_init rt argv) as [[o|]|]; simpl;
    [|by split; [split|]..].
  case_outcomes; try (by split; [split|]).
  destruct (on_createAndActivateServers rt); simpl.
  - split; [done|]. intros _. split; [by eexists|done].
  - by split; [split|].
Qed.

Lemma bootstrap_status_witness :
  exists p',
    initORBandServers demo_runtime ["hppCorbaServer"]
      (set_attPrivate (Some ChppciServerPrivate_new) demo_server)
    = Some (KD_OK, set_attPrivate (Some p') demo_server)
    /\ is_Some (orb p') /\ poa p' = Some HOLDING.
Proof.
  destruct (bootstrap_status demo_runtime ["hppCorbaServer"]
              (set_attPrivate (Some ChppciServerPrivate_new) demo_server)
              ChppciServerPrivate_new eq_refl)
    as (status & p' & Hinit & Hiff & Hpost).
  assert (status = KD_OK) as -> by (by apply Hiff).
  exists p'. split; [exact Hinit|].
  destruct (Hpost eq_refl) as (Horb & Hpoa & _). by split.
Defined.

(** X12. [initORBandServers] stops at the first step that fails. The calls
    it makes are the calls of a bootstrap without failure up to and
    including the failed one; it then writes one line, which names the step
    of the last call made, returns [KD_ERROR] and does not call
    [createAndActivateServers]. When no ORB step fails it makes all the
    calls and writes nothing, also when [createAndActivateServers] reports
    an error. *)
Theorem bootstrap_stops_at_first_failure
    (rt : Runtime) (argv : list string) (this : ChppciServer)
    (p : ChppciServerPrivate) :
  attPrivate this = Some p ->
  exists status p' calls lines,
    initORBandServers rt argv this = Some (status, set_attPrivate (Some p') this)
    /\ journal p' = journal p ++ calls
    /\ console p' = console p ++ lines
    /\ calls `prefix_of` bootstrap_calls argv
    /\ if orb_steps_succeed rt argv
       then calls = bootstrap_calls argv /\ lines = []
            /\ status = on_createAndActivateServers rt
       else status = KD_ERROR
            /\ (createAndActivateServers ∉ calls)
            /\ exists c msg,
                 last calls = Some c /\ lines = [msg]
                 /\ msg ∈ step_diagnostics c.
Proof.
  intros Hp. unfold initORBandServers.
  rewrite (through_attPrivate_Some _ _ _ Hp).
  unfold orb_steps_succeed, returns, bootstrap_calls. unfold_try. simpl.
  destruct (on_ORB_init rt argv) as [[o|]|]; simpl.
  - case_outcomes.
    all: eexists _, _, _, _; split; [reflexivity|]; simpl.
    all: split; [rewrite <- ?app_assoc; reflexivity|].
    all: split;
      [first [rewrite <- ?app_assoc; reflexivity|symmetry; apply app_nil_r]|].
    all: simpl; split; [by eexists|].
    all: try (split; [reflexivity|split; [reflexivity|reflexivity]]).
    all: split; [reflexivity|]; split; [not_in_calls|].
    all: eexists _, _; split; [reflexivity|]; split; [reflexivity|].
    all: simpl; apply list_elem_of_here.
  - eexists _, _, [_], [_]. split; [reflexivity|]. simpl.
    split; [reflexivity|]. split; [reflexivity|]. split; [by eexists|].
    split; [reflexivity|]. split; [not_in_calls|].
    eexists _, _. split; [reflexivity|]. split; [reflexivity|].
    simpl. apply list_elem_of_further, list_elem_of_here.
  - eexists _, _, [_], [_]. split; [reflexivity|]. simpl.
    split; [reflexivity|]. split; [reflexivity|]. split; [by eexists|].
    split; [reflexivity|]. split; [not_in_calls|].
    eexists _, _. split; [reflexivity|]. split; [reflexivity|].
    simpl. apply list_elem_of_here.
Qed.

Lemma bootstrap_stops_at_first_failure_witness :
  exists p' calls msg,
    initORBandServers adapter_refused []
      (set_attPrivate (Some ChppciServerPrivate_new) demo_server)
    = Some (KD_ERROR, set_attPrivate (Some p') demo_server)
    /\ journal p' = calls
    /\ console p' = [msg]
    /\ last calls = Some (create_POA "child")
    /\ msg = "failed to duplicate thread policy".
Proof.
  destruct (bootstrap_stops_at_first_failure adapter_refused []
              (set_attPrivate (Some ChppciServerPrivate_new) demo_server)
              ChppciServerPrivate_new eq_refl)
    as (status & p' & calls & lines & Hinit & Hjournal & Hconsole & _ & Hcase).
  change (orb_steps_succeed adapter_refused []) with false in Hcase.
  destruct Hcase as (-> & _ & c & msg & Hlast & -> & Hmsg).
  simpl in Hjournal, Hconsole.
  exists p', calls, msg. split; [exact Hinit|]. split; [exact Hjournal|].
  split; [exact Hconsole|].
  vm_compute in Hinit. injection Hinit as Hp'.
  rewrite <- Hp' in Hjournal, Hconsole. simpl in Hjournal, Hconsole.
  subst calls. injection Hconsole as <-. by split.
Defined.



(** X14. [startCorbaServer] gives up its reference to a servant only once
    the object is bound: among its calls the bindings and the releases come
    in the order bind robot, release robot, bind obstacle, release obstacle,
    bind problem, release problem, as far as it gets, and a servant is
    released only if its binding answered true. *)
Theorem release_follows_binding
    (rt : Runtime) (this : ChppciServer) (p : ChppciServerPrivate) :
  attPrivate this = Some p ->
  exists status p' calls,
    startCorbaServer rt this = Some (status, set_attPrivate (Some p') this)
    /\ journal p' = journal p ++ calls
    /\ handovers calls
       `prefix_of`
         [bindObjectToName robotServant robotName;
          Servant_remove_ref robotServant;
          bindObjectToName obstacleServant obstacleName;
          Servant_remove_ref obstacleServant;
          bindObjectToName problemServant problemName;
          Servant_remove_ref problemServant]
    /\ forall s : Servant,
         Servant_remove_ref s ∈ calls ->
         on_bindObjectToName rt s (service_name s) = Returns true.
Proof.
  intros Hp. unfold startCorbaServer.
  rewrite (through_attPrivate_Some _ _ _ Hp).
  unfold_try. simpl. fold robotName obstacleName problemName.
  case_outcomes.
  all: eexists _, _, _; split; [reflexivity|].
  all: rewrite ?journal_activated; simpl.
  all: split; [rewrite <- ?app_assoc; reflexivity|].
  all: simpl; split; [by eexists|].
  all: intros s Hin.
  all: repeat (apply elem_of_cons in Hin as [Hin|Hin];
               [try discriminate; try (by injection Hin as ->)|]).
  all: by apply elem_of_nil in Hin.
Qed.

Lemma release_follows_binding_witness :
  exists p' calls,
    startCorbaServer obstacle_refused demo_bootstrapped
    = Some (KD_ERROR, set_attPrivate (Some p') demo_bootstrapped)
    /\ journal p' = calls
    /\ handovers calls
       = [bindObjectToName robotServant robotName;
          Servant_remove_ref robotServant;
          bindObjectToName obstacleServant obstacleName]
    /\ (Servant_remove_ref obstacleServant ∉ calls).
Proof.
  destruct (release_follows_binding obstacle_refused demo_bootstrapped
              demo_private eq_refl)
    as (status & p' & calls & Hstart & Hjournal & _ & Hrelease).
  simpl in Hjournal.
  assert (status = KD_ERROR /\ calls
          = [Servant_this robotServant; Servant_this obstacleServant;
             Servant_this problemServant; createHppContext;
             bindObjectToName robotServant robotName;
             Servant_remove_ref robotServant;
             bindObjectToName obstacleServant obstacleName]) as [-> Hcalls].
  { vm_compute in Hstart. injection Hstart as <- Hp'.
    rewrite <- Hjournal, <- Hp'. by split. }
  exists p', calls. split; [exact Hstart|]. split; [exact Hjournal|].
  split; [by rewrite Hcalls|].
  intros Hin. by specialize (Hrelease obstacleServant Hin).
Defined.



(** X16. [processRequest] has a defined result exactly when the server has
    its private part and the ORB reference is not nil; neither is tested
    before the ORB is called. The value it returns is always 0. *)
Theorem processRequest_defined (this : ChppciServer) (loop : bool) :
  (processRequest this loop = Undefined
   <-> attPrivate this = None
       \/ exists p, attPrivate this = Some p /\ orb p = None)
  /\ match processRequest this loop with
     | Returned value _ => value = 0%Z
     | _ => True
     end.
Proof.
  unfold processRequest.
  destruct (attPrivate this) as [p|]; [|split; [split; auto|done]].
  destruct (orb p) as [o|] eqn:Ho.
  - split.
    + split.
      * destruct loop; [by destruct (run o)|by destruct (work_pending o)].
      * intros [|(q & [= <-] & Hq)]; congruence.
    + destruct loop; [by destruct (run o)|by destruct (work_pending o)].
  - split; [|done]. split; [|done]. intros _. right. by exists p.
Qed.


